(** * fireschema-ts-admin-runtime: collection handle, query builder, update builder

    A shallow embedding of [src/baseCollection.ts], [src/baseQueryBuilder.ts]
    and [src/baseUpdateBuilder.ts].

    - JavaScript values are an inductive type; a plain object (document
      payload, set options, update map) is a finite map from property names
      to values, holding the object's own enumerable properties.
    - Reading [o[k]] goes through the prototype chain: every object literal
      inherits from [Object.prototype], whose members are listed below.
    - The document store is external.  It is represented by a record of
      response functions over an abstract world state; every call the code
      makes on it is appended to a call log.
    - Builders are heap objects: the heap maps a location to the object's
      fields, so that instance identity can be stated. *)

From stdpp Require Import gmap strings list fin_maps.
From Stdlib Require Import ZArith.

Open Scope string_scope.
Open Scope list_scope.
Local Set Warnings "-register-all".

(** ** JavaScript values *)

(** The sentinels produced by the static methods of the SDK's [FieldValue]. *)
Inductive FieldValue (V : Type) : Type :=
  | FVServerTimestamp
  | FVDelete
  | FVIncrement (n : Z)
  | FVArrayUnion (elements : list V)
  | FVArrayRemove (elements : list V).
Arguments FVServerTimestamp {V}.
Arguments FVDelete {V}.
Arguments FVIncrement {V} n.
Arguments FVArrayUnion {V} elements.
Arguments FVArrayRemove {V} elements.

(** Numbers are integer literals: the code never computes on a number, it
    only stores it or tests it for truthiness.  [VFunction] is a reference to
    a function or class object, [VBuiltinObject] to a built-in object. *)
Inductive value : Type :=
  | VUndefined
  | VNull
  | VBool (b : bool)
  | VNumber (n : Z)
  | VString (s : string)
  | VArray (elems : list value)
  | VObject (props : list (string * value))
  | VFieldValue (fv : FieldValue value)
  | VFunction (name : string)
  | VBuiltinObject (name : string).

Definition AdminFieldValue := FieldValue value.

(** What can be thrown or be the reason of a rejection: an [Error] built
    by this code, a failure raised by the store, or the [TypeError] of the
    runtime. *)
Inductive JsError : Type :=
  | Error (message : string)
  | StoreFailure (reason : string)
  | TypeError (message : string).

(** The completion of a synchronous call. *)
Inductive Result (A : Type) : Type :=
  | Returned (a : A)
  | Thrown (e : JsError).
Arguments Returned {A} a.
Arguments Thrown {A} e.

(** The static methods of the SDK's [FieldValue].  [arrayUnion] and
    [arrayRemove] check that they are given at least one element and throw
    otherwise; the other three always return their sentinel.  (The reason
    below abbreviates the SDK's message.) *)
Definition arity_error (method : string) : JsError :=
  StoreFailure ("FieldValue." +:+ method +:+ "() requires at least 1 argument").

Module AdminFieldValueStatic.
Definition serverTimestamp : AdminFieldValue := FVServerTimestamp.
Definition delete : AdminFieldValue := FVDelete.
Definition increment (n : Z) : AdminFieldValue := FVIncrement n.
Definition arrayUnion (elements : list value) : Result AdminFieldValue :=
  match elements with
  | [] => Thrown (arity_error "arrayUnion")
  | _ :: _ => Returned (FVArrayUnion elements)
  end.
Definition arrayRemove (elements : list value) : Result AdminFieldValue :=
  match elements with
  | [] => Thrown (arity_error "arrayRemove")
  | _ :: _ => Returned (FVArrayRemove elements)
  end.
End AdminFieldValueStatic.

(** [v === undefined] *)
Definition is_undefined (v : value) : bool :=
  match v with VUndefined => true | _ => false end.

(** [v === s] for a string literal [s] *)
Definition strict_eq_string (v : value) (s : string) : bool :=
  match v with VString s' => bool_decide (s' = s) | _ => false end.

(** [v === true] *)
Definition strict_eq_true (v : value) : bool :=
  match v with VBool true => true | _ => false end.

(** ToBoolean *)
Definition truthy (v : value) : bool :=
  match v with
  | VUndefined | VNull => false
  | VBool b => b
  | VNumber n => negb (Z.eqb n 0)
  | VString s => negb (bool_decide (s = ""))
  | _ => true
  end.

(** ** Plain objects and property access *)

(** The members every object literal inherits (ECMAScript, with the legacy
    accessors Node.js provides).  None of them is enumerable. *)
Definition Object_prototype : gmap string value :=
  list_to_map
    [ ("constructor", VFunction "Object");
      ("hasOwnProperty", VFunction "hasOwnProperty");
      ("isPrototypeOf", VFunction "isPrototypeOf");
      ("propertyIsEnumerable", VFunction "propertyIsEnumerable");
      ("toLocaleString", VFunction "toLocaleString");
      ("toString", VFunction "toString");
      ("valueOf", VFunction "valueOf");
      ("__proto__", VBuiltinObject "Object.prototype");
      ("__defineGetter__", VFunction "__defineGetter__");
      ("__defineSetter__", VFunction "__defineSetter__");
      ("__lookupGetter__", VFunction "__lookupGetter__");
      ("__lookupSetter__", VFunction "__lookupSetter__") ].

(** [o[k]]: the own property when there is one, else the inherited one,
    else [undefined]. *)
Definition js_get (o : gmap string value) (k : string) : value :=
  match o !! k with
  | Some v => v
  | None => default VUndefined (Object_prototype !! k)
  end.

(** [k in o] *)
Definition js_in (k : string) (o : gmap string value) : bool :=
  bool_decide (is_Some (o !! k)) || bool_decide (is_Some (Object_prototype !! k)).

(** [{ ...o }]: a fresh object with the own enumerable properties of [o]. *)
Definition spread (o : gmap string value) : gmap string value := o.

(** ** Schema descriptor ([FieldSchema], [CollectionSchema]) *)

(** [defaultValue?: any] *)
Record FieldSchema := { defaultValue : option value }.

(** Reading [fieldDef.defaultValue]: [undefined] when the property is missing. *)
Definition read_defaultValue (fieldDef : FieldSchema) : value :=
  default VUndefined (defaultValue fieldDef).

(** [subCollections] maps a name to [{ schema?, collectionClass }]; the
    class is a reference to a constructor ([any] in the source). *)
Inductive CollectionSchema : Type :=
  mkCollectionSchema
    (fields : gmap string FieldSchema)
    (subCollections : option (gmap string SubCollectionDef))
with SubCollectionDef : Type :=
  mkSubCollectionDef
    (schema : option CollectionSchema)
    (collectionClass : value).

Definition fields (s : CollectionSchema) : gmap string FieldSchema :=
  match s with mkCollectionSchema f _ => f end.
Definition subCollections (s : CollectionSchema) : option (gmap string SubCollectionDef) :=
  match s with mkCollectionSchema _ t => t end.
Definition sub_schema (d : SubCollectionDef) : option CollectionSchema :=
  match d with mkSubCollectionDef s _ => s end.
Definition collectionClass (d : SubCollectionDef) : value :=
  match d with mkSubCollectionDef _ c => c end.

(** ** Default-value injection ([AdminBaseCollectionRef.applyDefaults]) *)

(** One iteration of the [for ... in this.schema.fields] loop. *)
Definition applyDefaults_field (fieldName : string) (fieldDef : FieldSchema)
    (dataWithDefaults : gmap string value) : gmap string value :=
  if strict_eq_string (read_defaultValue fieldDef) "serverTimestamp"
     && is_undefined (js_get dataWithDefaults fieldName)
  then <[fieldName := VFieldValue AdminFieldValueStatic.serverTimestamp]> dataWithDefaults
  else if negb (is_undefined (read_defaultValue fieldDef))
          && negb (strict_eq_string (read_defaultValue fieldDef) "serverTimestamp")
          && is_undefined (js_get dataWithDefaults fieldName)
  then <[fieldName := read_defaultValue fieldDef]> dataWithDefaults
  else dataWithDefaults.

(** The loop visits every own key of [schema.fields] once; an iteration
    reads and writes only its own key of the copy, so the order of the
    visits does not show in the result ([applyDefaults_any_order]). *)
Definition applyDefaults (schema : option CollectionSchema)
    (data : gmap string value) : gmap string value :=
  let dataWithDefaults := spread data in
  match schema with
  | Some s => map_fold applyDefaults_field dataWithDefaults (fields s)
  | None => dataWithDefaults
  end.

(** ** The store's handles and results (firebase-admin/firestore) *)

Inductive Firestore : Type := FirestoreInstance (projectId : string).

(** A collection or document reference exposes its [id] and [path]. *)
Record CollectionReference := { cref_id : string; cref_path : string }.
Record DocumentReference := { dref_id : string; dref_path : string }.

(** A [CollectionReference] is itself a [Query]; every chaining method of
    the SDK returns a query object, identified here by a handle. *)
Inductive Query : Type :=
  | QueryOfCollection (c : CollectionReference)
  | QueryHandle (h : nat).

(** [writeTime] is missing in the placeholder [{} as WriteResult]. *)
Record WriteResult := { writeTime : option Z }.

(** [exists] and the result of [data()] ([undefined] is [None]). *)
Record DocumentSnapshot := {
  snapshot_exists : bool;
  snapshot_data : option (gmap string value)
}.

(** [docs], each with the result of its [data()]. *)
Record QuerySnapshot := { docs : list (gmap string value) }.

(** The settled state of a promise. *)
Inductive Promise (A : Type) : Type :=
  | Resolved (a : A)
  | Rejected (e : JsError).
Arguments Resolved {A} a.
Arguments Rejected {A} e.

(** ** Constraint descriptors ([baseQueryBuilder.ts]) *)

Inductive AdminWhereFilterOp : Type :=
  | OpLt | OpLe | OpEq | OpNe | OpGe | OpGt
  | OpArrayContains | OpIn | OpNotIn | OpArrayContainsAny.

Inductive AdminOrderByDirection : Type := asc | desc.

(** [string | AdminFieldPath] *)
Inductive FieldPathArg : Type :=
  | FieldName (s : string)
  | AdminFieldPath (segments : list string).

Inductive LimitType : Type := type_limit | type_limitToLast.
Inductive CursorType : Type := type_startAt | type_startAfter | type_endAt | type_endBefore.

(** [QueryConstraintDefinition]: the union of the four descriptor shapes;
    the [type] tag is the constructor (and, for limits and cursors, the
    first component). *)
Inductive QueryConstraintDefinition : Type :=
  | WhereConstraint (fieldPath : FieldPathArg) (opStr : AdminWhereFilterOp) (v : value)
  | OrderByConstraint (fieldPath : FieldPathArg) (directionStr : AdminOrderByDirection)
  | LimitConstraint (type : LimitType) (limitCount : Z)
  | CursorConstraint (type : CursorType) (snapshotOrFieldValue : value) (fieldValues : list value).

(** A call of a chaining method of the SDK's [Query], with its arguments
    in order. *)
Inductive NativeQueryMethod : Type :=
  | native_where (fieldPath : FieldPathArg) (opStr : AdminWhereFilterOp) (v : value)
  | native_orderBy (fieldPath : FieldPathArg) (directionStr : AdminOrderByDirection)
  | native_limit (n : Z)
  | native_limitToLast (n : Z)
  | native_startAt (args : list value)
  | native_startAfter (args : list value)
  | native_endAt (args : list value)
  | native_endBefore (args : list value).

(** ** The call log *)

Inductive event : Type :=
  | EvFirestoreCollection (fs : Firestore) (collectionId : string)
  | EvDocumentCollection (parent : DocumentReference) (collectionId : string)
  | EvCollectionDoc (c : CollectionReference) (id : string)
  | EvCollectionAdd (c : CollectionReference) (data : gmap string value)
  | EvDocumentSet (d : DocumentReference) (data options : gmap string value)
  | EvDocumentDelete (d : DocumentReference)
  | EvDocumentGet (d : DocumentReference)
  | EvDocumentUpdate (d : DocumentReference) (data : gmap string value)
  | EvQuery (receiver : Query) (method : NativeQueryMethod)
  | EvQueryGet (q : Query)
  | EvNew (cls : value) (fs : Firestore) (collectionId : string)
      (schema : option CollectionSchema) (parentRef : option DocumentReference)
  | EvConsoleWarn (message : string).

(** ** Builder objects and the heap *)

Definition loc := positive.

(** The own properties of an [AdminBaseQueryBuilder] instance, and the
    prototype it was created from. *)
Record QueryBuilderObject := {
  qb_prototype : string;
  qb_firestore : Firestore;
  collectionRef : CollectionReference;
  constraintDefinitions : list QueryConstraintDefinition
}.

(** The own properties of an [AdminBaseUpdateBuilder] instance. *)
Record UpdateBuilderObject := {
  ub_prototype : string;
  _docRef : DocumentReference;
  _updateData : gmap string value
}.

Inductive heap_object : Type :=
  | HQueryBuilder (o : QueryBuilderObject)
  | HUpdateBuilder (o : UpdateBuilderObject).

(** ** Program state and the monad of the embedding *)

Record State (World : Type) := {
  world : World;
  heap : gmap loc heap_object;
  log : list event
}.
Arguments world {World} _.
Arguments heap {World} _.
Arguments log {World} _.

Definition M (World A : Type) : Type := State World → Result A * State World.

Definition ret {World A} (a : A) : M World A := λ σ, (Returned a, σ).
Definition throw {World A} (e : JsError) : M World A := λ σ, (Thrown e, σ).
Definition bind {World A B} (m : M World A) (k : A → M World B) : M World B :=
  λ σ, match m σ with
       | (Returned a, σ') => k a σ'
       | (Thrown e, σ') => (Thrown e, σ')
       end.

#[global] Instance M_ret {World} : MRet (M World) := λ A, ret.
#[global] Instance M_bind {World} : MBind (M World) := λ A B k m, bind m k.

(** The completion of a pure call, as a step of the program. *)
Definition completion {World A} (r : Result A) : M World A := λ σ, (r, σ).

(** An [async] function never throws to its caller: it returns a promise,
    rejected with whatever its body threw. *)
Definition async {World A} (body : M World A) : M World (Promise A) :=
  λ σ, match body σ with
       | (Returned a, σ') => (Returned (Resolved a), σ')
       | (Thrown e, σ') => (Returned (Rejected e), σ')
       end.

(** [await p], and [return p] inside an [async] body. *)
Definition await {World A} (p : Promise A) : M World A :=
  match p with
  | Resolved a => ret a
  | Rejected e => throw e
  end.

Definition emit {World} (ev : event) : M World unit :=
  λ σ, (Returned tt, {| world := world σ; heap := heap σ; log := log σ ++ [ev] |}).

(** A call into the store: it is logged, then the store answers and moves
    to its next state. *)
Definition store_call {World A} (ev : event)
    (respond : World → A * World) : M World A :=
  λ σ, let '(a, w) := respond (world σ) in
       (Returned a, {| world := w; heap := heap σ; log := log σ ++ [ev] |}).

(** The same for a synchronous method, which may throw. *)
Definition store_call_sync {World A} (ev : event)
    (respond : World → Result A * World) : M World A :=
  λ σ, let '(r, w) := respond (world σ) in
       (r, {| world := w; heap := heap σ; log := log σ ++ [ev] |}).

Definition alloc {World} (o : heap_object) : M World loc :=
  λ σ, let l := fresh (dom (heap σ)) in
       (Returned l, {| world := world σ; heap := <[l := o]> (heap σ); log := log σ |}).

Definition store_object {World} (l : loc) (o : heap_object) : M World unit :=
  λ σ, (Returned tt, {| world := world σ; heap := <[l := o]> (heap σ); log := log σ |}).

Definition this_query_builder {World} (this : loc) : M World QueryBuilderObject :=
  λ σ, match heap σ !! this with
       | Some (HQueryBuilder o) => (Returned o, σ)
       | _ => (Thrown (TypeError "not a query builder"), σ)
       end.

Definition this_update_builder {World} (this : loc) : M World UpdateBuilderObject :=
  λ σ, match heap σ !! this with
       | Some (HUpdateBuilder o) => (Returned o, σ)
       | _ => (Thrown (TypeError "not an update builder"), σ)
       end.

(** ** The store as the code sees it *)

(** One response function per SDK method the code calls.  Reference and
    query-chaining methods are synchronous and may throw; the I/O methods
    return a promise. *)
Record StoreAPI (World : Type) := {
  firestore_collection :
    Firestore → string → World → Result CollectionReference * World;
  document_collection :
    DocumentReference → string → World → Result CollectionReference * World;
  collection_doc :
    CollectionReference → string → World → Result DocumentReference * World;
  collection_add :
    CollectionReference → gmap string value → World → Promise DocumentReference * World;
  document_set :
    DocumentReference → gmap string value → gmap string value →
    World → Promise WriteResult * World;
  document_delete : DocumentReference → World → Promise WriteResult * World;
  document_get : DocumentReference → World → Promise DocumentSnapshot * World;
  document_update :
    DocumentReference → gmap string value → World → Promise WriteResult * World;
  query_method : Query → NativeQueryMethod → World → Result Query * World;
  query_get : Query → World → Promise QuerySnapshot * World
}.
Arguments firestore_collection {World} _.
Arguments document_collection {World} _.
Arguments collection_doc {World} _.
Arguments collection_add {World} _.
Arguments document_set {World} _.
Arguments document_delete {World} _.
Arguments document_get {World} _.
Arguments document_update {World} _.
Arguments query_method {World} _.
Arguments query_get {World} _.

(** The fields of an [AdminBaseCollectionRef] instance. *)
Record AdminBaseCollectionRef := {
  ref : CollectionReference;
  firestore : Firestore;
  collectionId : string;
  schema : option CollectionSchema
}.

(** [new C(firestore, collectionId, schema, parentRef)] for a constructor
    reference [C] taken from a schema: what the registered classes do is
    not part of this code. *)
Definition Constructors (World Instance : Type) : Type :=
  value → Firestore → string → option CollectionSchema →
  option DocumentReference → M World Instance.

Definition not_found_message (subCollectionId collection : string) : string :=
  "Sub-collection '" +:+ subCollectionId +:+
  "' not found in schema for collection '" +:+ collection +:+ "'".

Definition class_missing_message (subCollectionId collection : string) : string :=
  "Collection class definition missing for sub-collection '" +:+ subCollectionId +:+
  "' in schema for collection '" +:+ collection +:+ "'".

(** [table[name]] on the sub-collection table: an own entry, or else
    whatever value the prototype chain gives. *)
Definition read_subCollection (table : gmap string SubCollectionDef)
    (name : string) : SubCollectionDef + value :=
  match table !! name with
  | Some d => inl d
  | None => inr (default VUndefined (Object_prototype !! name))
  end.

(** [options && ('merge' in options && options.merge === true
    || 'mergeFields' in options)] *)
Definition isMerge (options : option (gmap string value)) : bool :=
  match options with
  | Some o =>
      (js_in "merge" o && strict_eq_true (js_get o "merge")) || js_in "mergeFields" o
  | None => false
  end.

(** [Object.keys(o)]; only its length is used. *)
Definition Object_keys (o : gmap string value) : list string := (map_to_list o).*1.

(** ** The collection handle ([class AdminBaseCollectionRef]) *)

Module CollectionRef.
Section Methods.
Context {World Instance : Type}.
Variable sdk : StoreAPI World.
Variable construct : Constructors World Instance.

Definition AdminBaseCollectionRef_new (fs : Firestore) (id : string)
    (sch : option CollectionSchema) (parentRef : option DocumentReference)
    : M World AdminBaseCollectionRef :=
  r ← match parentRef with
      | Some p => store_call_sync (EvDocumentCollection p id) (document_collection sdk p id)
      | None => store_call_sync (EvFirestoreCollection fs id) (firestore_collection sdk fs id)
      end;
  mret {| ref := r; firestore := fs; collectionId := id; schema := sch |}.

Definition doc (this : AdminBaseCollectionRef) (id : string) : M World DocumentReference :=
  store_call_sync (EvCollectionDoc (ref this) id) (collection_doc sdk (ref this) id).

Definition add (this : AdminBaseCollectionRef) (data : gmap string value)
    : M World (Promise DocumentReference) :=
  async (
    let dataToWrite := applyDefaults (schema this) data in
    p ← store_call (EvCollectionAdd (ref this) dataToWrite)
          (collection_add sdk (ref this) dataToWrite);
    await p).

Definition set (this : AdminBaseCollectionRef) (id : string)
    (data : gmap string value) (options : option (gmap string value))
    : M World (Promise WriteResult) :=
  async (
    docRef ← doc this id;
    let dataToWrite :=
      if negb (isMerge options) then applyDefaults (schema this) data else data in
    p ← store_call (EvDocumentSet docRef dataToWrite (default ∅ options))
          (document_set sdk docRef dataToWrite (default ∅ options));
    await p).

Definition delete (this : AdminBaseCollectionRef) (id : string)
    : M World (Promise WriteResult) :=
  async (
    docRef ← doc this id;
    p ← store_call (EvDocumentDelete docRef) (document_delete sdk docRef);
    await p).

Definition get (this : AdminBaseCollectionRef) (id : string)
    : M World (Promise (option (gmap string value))) :=
  async (
    docRef ← doc this id;
    p ← store_call (EvDocumentGet docRef) (document_get sdk docRef);
    snapshot ← await p;
    mret (if snapshot_exists snapshot then snapshot_data snapshot else None)).

Definition js_new (cls : value) (fs : Firestore) (id : string)
    (sch : option CollectionSchema) (parentRef : option DocumentReference)
    : M World Instance :=
  emit (EvNew cls fs id sch parentRef);;
  construct cls fs id sch parentRef.

Definition subCollection (this : AdminBaseCollectionRef)
    (parentId subCollectionId : string)
    (SubCollectionClass : value) (subSchema : option CollectionSchema)
    : M World Instance :=
  match schema this ≫= subCollections with
  | None => throw (Error (not_found_message subCollectionId (cref_id (ref this))))
  | Some table =>
      match read_subCollection table subCollectionId with
      | inr inherited =>
          if negb (truthy inherited)
          then throw (Error (not_found_message subCollectionId (cref_id (ref this))))
          else (* a built-in has no [collectionClass] property *)
            throw (Error (class_missing_message subCollectionId (cref_id (ref this))))
      | inl subCollectionDef =>
          let ResolvedSubCollectionClass := collectionClass subCollectionDef in
          if negb (truthy ResolvedSubCollectionClass)
          then throw (Error (class_missing_message subCollectionId (cref_id (ref this))))
          else
            parentDocRef ← doc this parentId;
            js_new ResolvedSubCollectionClass (firestore this) subCollectionId
              (sub_schema subCollectionDef) (Some parentDocRef)
      end
  end.

End Methods.
End CollectionRef.

(** ** The query builder ([class AdminBaseQueryBuilder]) *)

Module QueryBuilder.
Section Methods.
Context {World : Type}.
Variable sdk : StoreAPI World.

(** [new C(firestore, collectionRef)] for [C] the class or a subclass of
    it, [prototype] naming [C.prototype]. *)
Definition new (prototype : string) (fs : Firestore) (c : CollectionReference)
    : M World loc :=
  alloc (HQueryBuilder
    {| qb_prototype := prototype; qb_firestore := fs; collectionRef := c;
       constraintDefinitions := [] |}).

(** [Object.create] of the same prototype and [Object.assign] of the own
    properties give a fresh object with the fields of [this]; its
    [constraintDefinitions] is then replaced by a new array. *)
Definition addConstraintDefinition (this : loc)
    (definition : QueryConstraintDefinition) : M World loc :=
  self ← this_query_builder this;
  newBuilder ← alloc (HQueryBuilder
    {| qb_prototype := qb_prototype self; qb_firestore := qb_firestore self;
       collectionRef := collectionRef self;
       constraintDefinitions := constraintDefinitions self |});
  store_object newBuilder (HQueryBuilder
    {| qb_prototype := qb_prototype self; qb_firestore := qb_firestore self;
       collectionRef := collectionRef self;
       constraintDefinitions := constraintDefinitions self ++ [definition] |});;
  mret newBuilder.

Definition _where (this : loc) (fieldPath : FieldPathArg)
    (opStr : AdminWhereFilterOp) (v : value) : M World loc :=
  addConstraintDefinition this (WhereConstraint fieldPath opStr v).

(** [directionStr = 'asc'] when the argument is left out *)
Definition orderBy (this : loc) (fieldPath : FieldPathArg)
    (directionStr : option AdminOrderByDirection) : M World loc :=
  addConstraintDefinition this (OrderByConstraint fieldPath (default asc directionStr)).

Definition limit (this : loc) (limitCount : Z) : M World loc :=
  addConstraintDefinition this (LimitConstraint type_limit limitCount).

Definition limitToLast (this : loc) (limitCount : Z) : M World loc :=
  addConstraintDefinition this (LimitConstraint type_limitToLast limitCount).

Definition startAt (this : loc) (snapshotOrFieldValue : value)
    (fieldValues : list value) : M World loc :=
  addConstraintDefinition this (CursorConstraint type_startAt snapshotOrFieldValue fieldValues).

Definition startAfter (this : loc) (snapshotOrFieldValue : value)
    (fieldValues : list value) : M World loc :=
  addConstraintDefinition this (CursorConstraint type_startAfter snapshotOrFieldValue fieldValues).

Definition endBefore (this : loc) (snapshotOrFieldValue : value)
    (fieldValues : list value) : M World loc :=
  addConstraintDefinition this (CursorConstraint type_endBefore snapshotOrFieldValue fieldValues).

Definition endAt (this : loc) (snapshotOrFieldValue : value)
    (fieldValues : list value) : M World loc :=
  addConstraintDefinition this (CursorConstraint type_endAt snapshotOrFieldValue fieldValues).

Definition native (receiver : Query) (m : NativeQueryMethod) : M World Query :=
  store_call_sync (EvQuery receiver m) (query_method sdk receiver m).

(** The body of the [forEach] callback: the [switch] on [def.type]. *)
Definition buildQuery_case (adminQuery : Query) (def : QueryConstraintDefinition)
    : M World Query :=
  match def with
  | WhereConstraint fieldPath opStr v =>
      native adminQuery (native_where fieldPath opStr v)
  | OrderByConstraint fieldPath directionStr =>
      native adminQuery (native_orderBy fieldPath directionStr)
  | LimitConstraint type_limit limitCount =>
      native adminQuery (native_limit limitCount)
  | LimitConstraint type_limitToLast limitCount =>
      native adminQuery (native_limitToLast limitCount)
  | CursorConstraint type_startAt snapshotOrFieldValue fieldValues =>
      native adminQuery (native_startAt (snapshotOrFieldValue :: fieldValues))
  | CursorConstraint type_startAfter snapshotOrFieldValue fieldValues =>
      native adminQuery (native_startAfter (snapshotOrFieldValue :: fieldValues))
  | CursorConstraint type_endAt snapshotOrFieldValue fieldValues =>
      native adminQuery (native_endAt (snapshotOrFieldValue :: fieldValues))
  | CursorConstraint type_endBefore snapshotOrFieldValue fieldValues =>
      native adminQuery (native_endBefore (snapshotOrFieldValue :: fieldValues))
  end.

(** [defs.forEach(def => { adminQuery = ... })] *)
Fixpoint forEach (defs : list QueryConstraintDefinition) (adminQuery : Query)
    : M World Query :=
  match defs with
  | [] => mret adminQuery
  | def :: rest => q ← buildQuery_case adminQuery def; forEach rest q
  end.

Definition buildQuery (this : loc) : M World Query :=
  self ← this_query_builder this;
  forEach (constraintDefinitions self) (QueryOfCollection (collectionRef self)).

Definition getSnapshot (this : loc) : M World (Promise QuerySnapshot) :=
  async (
    q ← buildQuery this;
    p ← store_call (EvQueryGet q) (query_get sdk q);
    await p).

Definition get (this : loc) : M World (Promise (list (gmap string value))) :=
  async (
    p ← getSnapshot this;
    snapshot ← await p;
    mret (docs snapshot)).

End Methods.
End QueryBuilder.

(** ** The update builder ([class AdminBaseUpdateBuilder]) *)

Module UpdateBuilder.
Section Methods.
Context {World : Type}.
Variable sdk : StoreAPI World.

Definition new (prototype : string) (docRef : DocumentReference) : M World loc :=
  alloc (HUpdateBuilder
    {| ub_prototype := prototype; _docRef := docRef; _updateData := ∅ |}).

(** [{ ...this._updateData, [fieldPath]: value }] is a new object: the
    copy of the map with the entry for [fieldPath] defined last. *)
Definition _set (this : loc) (fieldPath : string) (v : value) : M World loc :=
  self ← this_update_builder this;
  newBuilder ← alloc (HUpdateBuilder
    {| ub_prototype := ub_prototype self; _docRef := _docRef self;
       _updateData := _updateData self |});
  store_object newBuilder (HUpdateBuilder
    {| ub_prototype := ub_prototype self; _docRef := _docRef self;
       _updateData := <[fieldPath := v]> (spread (_updateData self)) |});;
  mret newBuilder.

Definition _getIncrementFieldValue (n : Z) : AdminFieldValue :=
  AdminFieldValueStatic.increment n.
Definition _getArrayUnionFieldValue (values : list value) : Result AdminFieldValue :=
  AdminFieldValueStatic.arrayUnion values.
Definition _getArrayRemoveFieldValue (values : list value) : Result AdminFieldValue :=
  AdminFieldValueStatic.arrayRemove values.
Definition _getServerTimestampFieldValue : AdminFieldValue :=
  AdminFieldValueStatic.serverTimestamp.
Definition _getDeleteFieldValue : AdminFieldValue :=
  AdminFieldValueStatic.delete.

Definition _increment (this : loc) (fieldPath : string) (n : Z) : M World loc :=
  _set this fieldPath (VFieldValue (_getIncrementFieldValue n)).
(** The argument is evaluated before [_set] is entered: when the sentinel
    constructor throws, nothing is recorded and no builder is made. *)
Definition _arrayUnion (this : loc) (fieldPath : string) (values : list value)
    : M World loc :=
  fv ← completion (_getArrayUnionFieldValue values);
  _set this fieldPath (VFieldValue fv).
Definition _arrayRemove (this : loc) (fieldPath : string) (values : list value)
    : M World loc :=
  fv ← completion (_getArrayRemoveFieldValue values);
  _set this fieldPath (VFieldValue fv).
Definition _serverTimestamp (this : loc) (fieldPath : string) : M World loc :=
  _set this fieldPath (VFieldValue _getServerTimestampFieldValue).
Definition _deleteField (this : loc) (fieldPath : string) : M World loc :=
  _set this fieldPath (VFieldValue _getDeleteFieldValue).

Definition commit (this : loc) : M World (Promise WriteResult) :=
  async (
    self ← this_update_builder this;
    if bool_decide (length (Object_keys (_updateData self)) = 0)
    then
      emit (EvConsoleWarn "Update commit called with no changes specified.");;
      await (Resolved {| writeTime := None |})
    else
      p ← store_call (EvDocumentUpdate (_docRef self) (_updateData self))
            (document_update sdk (_docRef self) (_updateData self));
      await p).

End Methods.
End UpdateBuilder.

(** ** Specification-side definitions *)

(** The table of field defaults of an optional schema. *)
Definition schema_fields (sch : option CollectionSchema) : gmap string FieldSchema :=
  match sch with Some s => fields s | None => ∅ end.

(** The value the loop stores for a field it fills: the server-timestamp
    sentinel for the marker string, the literal otherwise, nothing when no
    default is configured. *)
Definition installed_default (fieldDef : FieldSchema) : option value :=
  if strict_eq_string (read_defaultValue fieldDef) "serverTimestamp"
  then Some (VFieldValue FVServerTimestamp)
  else if is_undefined (read_defaultValue fieldDef) then None
  else Some (read_defaultValue fieldDef).

(** What is found under [g] once the loop has run over the table [m]. *)
Definition filled (m : gmap string FieldSchema) (data : gmap string value)
    (g : string) : option value :=
  match m !! g with
  | Some fieldDef =>
      if is_undefined (js_get data g)
      then match installed_default fieldDef with
           | Some d => Some d
           | None => data !! g
           end
      else data !! g
  | None => data !! g
  end.

(** A field of the payload that reaches the write with the value the
    caller gave it: the claim of the specification for every present field. *)
Definition present_fields_unchanged : Prop :=
  ∀ (sch : option CollectionSchema) (data : gmap string value) f v,
    data !! f = Some v → applyDefaults sch data !! f = Some v.

(** ** Fixtures: a mock store and the schemas of the specification's examples *)

(** The store of the unit tests: references are built from paths, writes
    resolve, reads find no document, and every chaining call returns a new
    query handle numbered by the world counter. *)
Definition mock_sdk : StoreAPI nat := {|
  firestore_collection _ id w := (Returned {| cref_id := id; cref_path := id |}, w);
  document_collection p id w :=
    (Returned {| cref_id := id; cref_path := dref_path p +:+ "/" +:+ id |}, w);
  collection_doc c id w :=
    (Returned {| dref_id := id; dref_path := cref_path c +:+ "/" +:+ id |}, w);
  collection_add c _ w :=
    (Resolved {| dref_id := "generated"; dref_path := cref_path c +:+ "/generated" |}, w);
  document_set _ _ _ w := (Resolved {| writeTime := Some 1%Z |}, w);
  document_delete _ w := (Resolved {| writeTime := Some 1%Z |}, w);
  document_get _ w := (Resolved {| snapshot_exists := false; snapshot_data := None |}, w);
  document_update _ _ w := (Resolved {| writeTime := Some 1%Z |}, w);
  query_method _ _ w := (Returned (QueryHandle w), S w);
  query_get _ w := (Resolved {| docs := [] |}, w)
|}.

Definition initial_state {World} (w : World) : State World :=
  {| world := w; heap := ∅; log := [] |}.

Definition mock_firestore : Firestore := FirestoreInstance "demo-project-id".

(** [{fields: {status: {defaultValue: "inactive"}, score: {defaultValue: 0}}}] *)
Definition status_score_schema : CollectionSchema :=
  mkCollectionSchema
    (list_to_map [ ("status", {| defaultValue := Some (VString "inactive") |});
                   ("score", {| defaultValue := Some (VNumber 0) |}) ])
    None.

Definition items_handle (sch : option CollectionSchema) : AdminBaseCollectionRef :=
  {| ref := {| cref_id := "test-items"; cref_path := "test-items" |};
     firestore := mock_firestore; collectionId := "test-items"; schema := sch |}.

(** [{name: "x", status: undefined}] *)
Definition payload_with_explicit_undefined : gmap string value :=
  list_to_map [ ("name", VString "x"); ("status", VUndefined) ].

(** [{name: "x", status: null, score: 0}] with falsy values *)
Definition payload_with_falsy_values : gmap string value :=
  list_to_map [ ("name", VString "x"); ("status", VNull); ("score", VNumber 0) ].

(** The options of a [set] that ask for a merge, in the words of the
    specification: the merge flag is [true], or a [mergeFields] entry is
    present. *)
Definition requests_merge (options : option (gmap string value)) : Prop :=
  ∃ o, options = Some o ∧
       (o !! "merge" = Some (VBool true) ∨ is_Some (o !! "mergeFields")).

(** [msg] contains [s]. *)
Definition mentions (msg s : string) : Prop :=
  ∃ pre post, msg = pre +:+ s +:+ post.

(** The ways the schema can fail to provide a sub-collection class:
    (a) no table, or no entry for the name; (b) an entry whose
    [collectionClass] is missing (any falsy value). *)
Definition subCollection_misconfigured (sch : option CollectionSchema)
    (name : string) : Prop :=
  sch ≫= subCollections = None ∨
  (∃ table, sch ≫= subCollections = Some table ∧ table !! name = None) ∨
  (∃ table d, sch ≫= subCollections = Some table ∧ table !! name = Some d ∧
              truthy (collectionClass d) = false).

(** [{fields: {constructor: {defaultValue: "serverTimestamp"},
               createdAt: {defaultValue: "serverTimestamp"}}}] *)
Definition timestamped_schema : CollectionSchema :=
  mkCollectionSchema
    (list_to_map [ ("constructor", {| defaultValue := Some (VString "serverTimestamp") |});
                   ("createdAt", {| defaultValue := Some (VString "serverTimestamp") |}) ])
    None.

(** [{name: "x"}] *)
Definition payload_name_only : gmap string value :=
  list_to_map [ ("name", VString "x") ].

(** [{score: 5}] and [{merge: true}] *)
Definition payload_score_only : gmap string value :=
  list_to_map [ ("score", VNumber 5) ].
Definition options_merge_true : gmap string value :=
  list_to_map [ ("merge", VBool true) ].

(** The store of the unit tests, answering [get] with a given snapshot. *)
Definition mock_sdk_with_snapshot (snapshot : DocumentSnapshot) : StoreAPI nat := {|
  firestore_collection := firestore_collection mock_sdk;
  document_collection := document_collection mock_sdk;
  collection_doc := collection_doc mock_sdk;
  collection_add := collection_add mock_sdk;
  document_set := document_set mock_sdk;
  document_delete := document_delete mock_sdk;
  document_get _ w := (Resolved snapshot, w);
  document_update := document_update mock_sdk;
  query_method := query_method mock_sdk;
  query_get := query_get mock_sdk
|}.

(** The schema of the sub-collection tests: one registered class. *)
Definition sub_items_schema : CollectionSchema :=
  mkCollectionSchema (list_to_map [ ("value", {| defaultValue := None |}) ]) None.

Definition parent_schema : CollectionSchema :=
  mkCollectionSchema
    (list_to_map [ ("name", {| defaultValue := None |}) ])
    (Some (list_to_map
       [ ("sub-items",
          mkSubCollectionDef (Some sub_items_schema) (VFunction "MockSubCollection"));
         ("unregistered",
          mkSubCollectionDef (Some sub_items_schema) VUndefined) ])).

(** [class MockSubCollection extends AdminBaseCollectionRef] with a
    constructor that only calls [super]; anything else is not a constructor. *)
Definition mock_construct : Constructors nat AdminBaseCollectionRef :=
  λ cls fs id sch parentRef,
    match cls with
    | VFunction "MockSubCollection" =>
        CollectionRef.AdminBaseCollectionRef_new mock_sdk fs id sch parentRef
    | _ => throw (TypeError "not a constructor")
    end.

(** ** The public calls of the builders, as data *)

(** A constraint-adding call on a query builder. *)
Inductive QueryCall : Type :=
  | call_where (fieldPath : FieldPathArg) (opStr : AdminWhereFilterOp) (v : value)
  | call_orderBy (fieldPath : FieldPathArg) (directionStr : option AdminOrderByDirection)
  | call_limit (limitCount : Z)
  | call_limitToLast (limitCount : Z)
  | call_startAt (snapshotOrFieldValue : value) (fieldValues : list value)
  | call_startAfter (snapshotOrFieldValue : value) (fieldValues : list value)
  | call_endBefore (snapshotOrFieldValue : value) (fieldValues : list value)
  | call_endAt (snapshotOrFieldValue : value) (fieldValues : list value).

Definition invoke_query_call {World} (b : loc) (c : QueryCall) : M World loc :=
  match c with
  | call_where fieldPath opStr v => QueryBuilder._where b fieldPath opStr v
  | call_orderBy fieldPath directionStr => QueryBuilder.orderBy b fieldPath directionStr
  | call_limit n => QueryBuilder.limit b n
  | call_limitToLast n => QueryBuilder.limitToLast b n
  | call_startAt s vs => QueryBuilder.startAt b s vs
  | call_startAfter s vs => QueryBuilder.startAfter b s vs
  | call_endBefore s vs => QueryBuilder.endBefore b s vs
  | call_endAt s vs => QueryBuilder.endAt b s vs
  end.

(** [b.c1(...).c2(...)...] *)
Fixpoint query_chain {World} (b : loc) (calls : list QueryCall) : M World loc :=
  match calls with
  | [] => mret b
  | c :: rest => b' ← invoke_query_call b c; query_chain b' rest
  end.

(** The descriptor a call is expected to record. *)
Definition recorded_descriptor (c : QueryCall) : QueryConstraintDefinition :=
  match c with
  | call_where fieldPath opStr v => WhereConstraint fieldPath opStr v
  | call_orderBy fieldPath directionStr =>
      OrderByConstraint fieldPath (default asc directionStr)
  | call_limit n => LimitConstraint type_limit n
  | call_limitToLast n => LimitConstraint type_limitToLast n
  | call_startAt s vs => CursorConstraint type_startAt s vs
  | call_startAfter s vs => CursorConstraint type_startAfter s vs
  | call_endBefore s vs => CursorConstraint type_endBefore s vs
  | call_endAt s vs => CursorConstraint type_endAt s vs
  end.

(** The native method of the same kind, with the arguments of the call. *)
Definition expected_native (c : QueryCall) : NativeQueryMethod :=
  match c with
  | call_where fieldPath opStr v => native_where fieldPath opStr v
  | call_orderBy fieldPath directionStr => native_orderBy fieldPath (default asc directionStr)
  | call_limit n => native_limit n
  | call_limitToLast n => native_limitToLast n
  | call_startAt s vs => native_startAt (s :: vs)
  | call_startAfter s vs => native_startAfter (s :: vs)
  | call_endBefore s vs => native_endBefore (s :: vs)
  | call_endAt s vs => native_endAt (s :: vs)
  end.

(** Chaining the native methods [ms] from [receiver]: the calls made, the
    completion, and the store's world afterwards.  Each call is made on the
    query the previous one returned; a throwing call ends the chain. *)
Fixpoint replay {World} (sdk : StoreAPI World) (ms : list NativeQueryMethod)
    (receiver : Query) (w : World) : list event * Result Query * World :=
  match ms with
  | [] => ([], Returned receiver, w)
  | m :: rest =>
      match query_method sdk receiver m w with
      | (Returned q', w') =>
          let '(evs, r, w'') := replay sdk rest q' w' in
          (EvQuery receiver m :: evs, r, w'')
      | (Thrown e, w') => ([EvQuery receiver m], Thrown e, w')
      end
  end.

(** The native methods of the query calls in a log, in order. *)
Definition native_methods (evs : list event) : list NativeQueryMethod :=
  omap (λ ev, match ev with EvQuery _ m => Some m | _ => None end) evs.

(** An operation-adding call on an update builder. *)
Inductive UpdateCall : Type :=
  | call_set (fieldPath : string) (v : value)
  | call_increment (fieldPath : string) (n : Z)
  | call_arrayUnion (fieldPath : string) (values : list value)
  | call_arrayRemove (fieldPath : string) (values : list value)
  | call_serverTimestamp (fieldPath : string)
  | call_deleteField (fieldPath : string).

Definition invoke_update_call {World} (b : loc) (c : UpdateCall) : M World loc :=
  match c with
  | call_set fieldPath v => UpdateBuilder._set b fieldPath v
  | call_increment fieldPath n => UpdateBuilder._increment b fieldPath n
  | call_arrayUnion fieldPath values => UpdateBuilder._arrayUnion b fieldPath values
  | call_arrayRemove fieldPath values => UpdateBuilder._arrayRemove b fieldPath values
  | call_serverTimestamp fieldPath => UpdateBuilder._serverTimestamp b fieldPath
  | call_deleteField fieldPath => UpdateBuilder._deleteField b fieldPath
  end.

Fixpoint update_chain {World} (b : loc) (calls : list UpdateCall) : M World loc :=
  match calls with
  | [] => mret b
  | c :: rest => b' ← invoke_update_call b c; update_chain b' rest
  end.

Definition call_path (c : UpdateCall) : string :=
  match c with
  | call_set p _ | call_increment p _ | call_arrayUnion p _
  | call_arrayRemove p _ | call_serverTimestamp p | call_deleteField p => p
  end.

(** The value or sentinel a call is expected to record. *)
Definition call_value (c : UpdateCall) : value :=
  match c with
  | call_set _ v => v
  | call_increment _ n => VFieldValue (FVIncrement n)
  | call_arrayUnion _ values => VFieldValue (FVArrayUnion values)
  | call_arrayRemove _ values => VFieldValue (FVArrayRemove values)
  | call_serverTimestamp _ => VFieldValue FVServerTimestamp
  | call_deleteField _ => VFieldValue FVDelete
  end.

(** The calls whose sentinel the SDK constructs: every call but an
    [arrayUnion] or [arrayRemove] of no element. *)
Definition call_accepted (c : UpdateCall) : bool :=
  match c with
  | call_arrayUnion _ [] | call_arrayRemove _ [] => false
  | _ => true
  end.

(** What the other calls throw. *)
Definition call_error (c : UpdateCall) : JsError :=
  match c with
  | call_arrayRemove _ _ => arity_error "arrayRemove"
  | _ => arity_error "arrayUnion"
  end.

(** The value of the last call of [calls] made on [fieldPath]. *)
Definition last_recorded (fieldPath : string) (calls : list UpdateCall) : option value :=
  call_value <$> last (filter (λ c, call_path c = fieldPath) calls).

(** The number of [update] calls in a log. *)
Definition is_update_call (ev : event) : bool :=
  match ev with EvDocumentUpdate _ _ => true | _ => false end.
Definition update_calls (evs : list event) : nat :=
  length (List.filter is_update_call evs).

(** The fields of a query builder with one more descriptor. *)
Definition appended (o : QueryBuilderObject) (definition : QueryConstraintDefinition)
    : QueryBuilderObject :=
  {| qb_prototype := qb_prototype o; qb_firestore := qb_firestore o;
     collectionRef := collectionRef o;
     constraintDefinitions := constraintDefinitions o ++ [definition] |}.

(** The fields of an update builder with one more recorded operation. *)
Definition recorded (o : UpdateBuilderObject) (fieldPath : string) (v : value)
    : UpdateBuilderObject :=
  {| ub_prototype := ub_prototype o; _docRef := _docRef o;
     _updateData := <[fieldPath := v]> (_updateData o) |}.

(** Builders of the unit tests, freshly constructed in the empty heap. *)
Definition items_collection : CollectionReference :=
  {| cref_id := "test-items"; cref_path := "test-items" |}.
Definition items_document : DocumentReference :=
  {| dref_id := "test-doc-123"; dref_path := "test-items/test-doc-123" |}.

Definition new_query_builder_state : State nat :=
  (QueryBuilder.new "AdminBaseQueryBuilder" mock_firestore items_collection
     (initial_state 0)).2.
Definition new_update_builder_state : State nat :=
  (UpdateBuilder.new "AdminBaseUpdateBuilder" items_document (initial_state 0)).2.

(** The builder [_set("name", "New Name")] returns on the new builder. *)
Definition named_update_builder_state : State nat :=
  (invoke_update_call 1%positive (call_set "name" (VString "New Name"))
     new_update_builder_state).2.

(** [{name: "x", status: "active"}] *)
Definition payload_name_status : gmap string value :=
  list_to_map [ ("name", VString "x"); ("status", VString "active") ].

(** A snapshot of an existing document [{name: "Fetched Item"}]. *)
Definition fetched_snapshot : DocumentSnapshot :=
  {| snapshot_exists := true;
     snapshot_data := Some (list_to_map [ ("name", VString "Fetched Item") ]) |}.

(** [filter(A).orderBy(B).limit(5).startAfter(C)] *)
Definition filter_orderBy_limit_startAfter : list QueryCall :=
  [ call_where (FieldName "A") OpEq (VNumber 1);
    call_orderBy (FieldName "B") None;
    call_limit 5;
    call_startAfter (VString "C") [] ].

(** [setField("count", 1).setField("count", 2)] *)
Definition setField_count_twice : list UpdateCall :=
  [ call_set "count" (VNumber 1); call_set "count" (VNumber 2) ].

(** A store that is unreachable: references resolve, every I/O call is
    rejected. *)
Definition unavailable : JsError := StoreFailure "unavailable".
Definition failing_sdk : StoreAPI nat := {|
  firestore_collection := firestore_collection mock_sdk;
  document_collection := document_collection mock_sdk;
  collection_doc := collection_doc mock_sdk;
  collection_add _ _ w := (Rejected unavailable, w);
  document_set _ _ _ w := (Rejected unavailable, w);
  document_delete _ w := (Rejected unavailable, w);
  document_get _ w := (Rejected unavailable, w);
  document_update _ _ w := (Rejected unavailable, w);
  query_method := query_method mock_sdk;
  query_get _ w := (Rejected unavailable, w)
|}.

(** A store whose [doc(id)] throws, as the SDK does for an empty id. *)
Definition invalid_id : JsError := StoreFailure "documentPath must be a non-empty string".
Definition throwing_doc_sdk : StoreAPI nat := {|
  firestore_collection := firestore_collection mock_sdk;
  document_collection := document_collection mock_sdk;
  collection_doc _ _ w := (Thrown invalid_id, w);
  collection_add := collection_add mock_sdk;
  document_set := document_set mock_sdk;
  document_delete := document_delete mock_sdk;
  document_get := document_get mock_sdk;
  document_update := document_update mock_sdk;
  query_method := query_method mock_sdk;
  query_get := query_get mock_sdk
|}.

Definition is_query_call (ev : event) : bool :=
  match ev with EvQuery _ _ => true | _ => false end.

(** [p.then(f)] on a settled promise, for a function that does not throw. *)
Definition promise_map {A B} (f : A → B) (p : Promise A) : Promise B :=
  match p with
  | Resolved a => Resolved (f a)
  | Rejected e => Rejected e
  end.

(** A store that validates limits as the SDK does: [limit] and
    [limitToLast] throw on a negative count. *)
Definition invalid_limit : JsError := StoreFailure "limit must be non-negative".
Definition validating_sdk : StoreAPI nat := {|
  firestore_collection := firestore_collection mock_sdk;
  document_collection := document_collection mock_sdk;
  collection_doc := collection_doc mock_sdk;
  collection_add := collection_add mock_sdk;
  document_set := document_set mock_sdk;
  document_delete := document_delete mock_sdk;
  document_get := document_get mock_sdk;
  document_update := document_update mock_sdk;
  query_method _ m w :=
    match m with
    | native_limit n | native_limitToLast n =>
        if (n <? 0)%Z then (Thrown invalid_limit, w) else (Returned (QueryHandle w), S w)
    | _ => (Returned (QueryHandle w), S w)
    end;
  query_get := query_get mock_sdk
|}.

(** * Properties *)

(** ** Default-value injection *)

Lemma js_get_ext (o o' : gmap string value) k :
  o !! k = o' !! k → js_get o k = js_get o' k.
Proof. unfold js_get. by intros ->. Qed.

Lemma applyDefaults_field_lookup_eq f fieldDef (d : gmap string value) :
  applyDefaults_field f fieldDef d !! f =
    if is_undefined (js_get d f)
    then match installed_default fieldDef with Some x => Some x | None => d !! f end
    else d !! f.
Proof.
  unfold applyDefaults_field, installed_default.
  destruct (strict_eq_string (read_defaultValue fieldDef) "serverTimestamp") eqn:Hts;
    destruct (is_undefined (js_get d f)) eqn:Hu;
    destruct (is_undefined (read_defaultValue fieldDef)) eqn:Hd; simpl;
    by rewrite ?lookup_insert_eq.
Qed.

Lemma applyDefaults_field_lookup_ne f g fieldDef (d : gmap string value) :
  f ≠ g → applyDefaults_field f fieldDef d !! g = d !! g.
Proof.
  intros Hne. unfold applyDefaults_field.
  repeat case_match; by rewrite ?lookup_insert_ne.
Qed.

Lemma map_fold_applyDefaults_lookup (m : gmap string FieldSchema)
    (data : gmap string value) g :
  map_fold applyDefaults_field data m !! g = filled m data g.
Proof.
  revert g.
  apply (map_fold_weak_ind
    (λ r m, ∀ g, r !! g = filled m data g) applyDefaults_field data).
  - intros g. unfold filled. by rewrite lookup_empty.
  - intros i x m' r Hi IH g. unfold filled.
    destruct (decide (i = g)) as [<-|Hne].
    + rewrite lookup_insert_eq, applyDefaults_field_lookup_eq.
      assert (r !! i = data !! i) as Hr.
      { rewrite IH. unfold filled. by rewrite Hi. }
      rewrite (js_get_ext r data i Hr), Hr. done.
    + rewrite lookup_insert_ne by done.
      rewrite applyDefaults_field_lookup_ne by done. apply IH.
Qed.

Lemma applyDefaults_lookup sch (data : gmap string value) g :
  applyDefaults sch data !! g = filled (schema_fields sch) data g.
Proof.
  destruct sch as [s|]; simpl.
  - apply map_fold_applyDefaults_lookup.
  - unfold filled, spread. by rewrite lookup_empty.
Qed.

(** The loop run over the entries of the table in any order they can be
    enumerated in (insertion order in JavaScript) gives the map of
    [applyDefaults]. *)
Lemma foldl_applyDefaults_lookup (l : list (string * FieldSchema)) :
  ∀ (data : gmap string value) g,
    NoDup l.*1 →
    foldl (λ d kv, applyDefaults_field kv.1 kv.2 d) data l !! g =
      filled (list_to_map l) data g.
Proof.
  induction l as [|[k fieldDef] l IH]; intros data g Hnd; simpl.
  - unfold filled. by rewrite lookup_empty.
  - apply NoDup_cons in Hnd as [Hk Hnd]. rewrite IH by done.
    unfold filled. destruct (decide (k = g)) as [<-|Hne].
    + rewrite lookup_insert_eq.
      rewrite (not_elem_of_list_to_map_1 l k Hk).
      apply applyDefaults_field_lookup_eq.
    + rewrite lookup_insert_ne by done.
      assert (applyDefaults_field k fieldDef data !! g = data !! g) as Hg
        by (by apply applyDefaults_field_lookup_ne).
      by rewrite (js_get_ext _ data g Hg), Hg.
Qed.

Lemma applyDefaults_any_order (s : CollectionSchema) (data : gmap string value)
    (l : list (string * FieldSchema)) :
  l ≡ₚ map_to_list (fields s) →
  foldl (λ d kv, applyDefaults_field kv.1 kv.2 d) (spread data) l =
    applyDefaults (Some s) data.
Proof.
  intros Hperm. apply map_eq. intros g.
  assert (NoDup l.*1) as Hnd.
  { rewrite Hperm. apply NoDup_fst_map_to_list. }
  rewrite foldl_applyDefaults_lookup by done.
  rewrite applyDefaults_lookup. simpl.
  rewrite (list_to_map_proper l (map_to_list (fields s)) Hnd Hperm).
  by rewrite list_to_map_to_list.
Qed.

(** Filling a field depends on the value read for it only. *)
Lemma applyDefaults_keeps_defined sch (data : gmap string value) f v :
  data !! f = Some v → v ≠ VUndefined → applyDefaults sch data !! f = Some v.
Proof.
  intros Hf Hv. rewrite applyDefaults_lookup. unfold filled.
  destruct (schema_fields sch !! f) as [fd|]; [|done].
  assert (js_get data f = v) as -> by (unfold js_get; by rewrite Hf).
  destruct v; done.
Qed.

Lemma applyDefaults_changes_only_undefined sch (data : gmap string value) f :
  applyDefaults sch data !! f ≠ data !! f →
  js_get data f = VUndefined ∧
  ∃ fieldDef, schema_fields sch !! f = Some fieldDef ∧
    ((read_defaultValue fieldDef = VString "serverTimestamp" ∧
      applyDefaults sch data !! f = Some (VFieldValue FVServerTimestamp)) ∨
     (read_defaultValue fieldDef ≠ VString "serverTimestamp" ∧
      read_defaultValue fieldDef ≠ VUndefined ∧
      applyDefaults sch data !! f = Some (read_defaultValue fieldDef))).
Proof.
  rewrite applyDefaults_lookup. unfold filled, installed_default.
  destruct (schema_fields sch !! f) as [fd|]; [|done].
  destruct (is_undefined (js_get data f)) eqn:Hu; [|done].
  intros Hne. split; [by destruct (js_get data f)|].
  exists fd. split; [done|].
  destruct (strict_eq_string (read_defaultValue fd) "serverTimestamp") eqn:Hts.
  - left. split; [|done].
    unfold strict_eq_string in Hts. destruct (read_defaultValue fd); try done.
    by apply bool_decide_eq_true in Hts as ->.
  - destruct (is_undefined (read_defaultValue fd)) eqn:Hd; [done|].
    right. split_and!; [|by intros Heq; rewrite Heq in Hd|done].
    intros Heq. by rewrite Heq in Hts.
Qed.

(** ** Running the collection handle's operations *)

Section CollectionRun.
Context {World : Type} (sdk : StoreAPI World).

Lemma add_run this data σ :
  CollectionRef.add sdk this data σ =
    let w := applyDefaults (schema this) data in
    let '(p, wld) := collection_add sdk (ref this) w (world σ) in
    (Returned p,
     {| world := wld; heap := heap σ;
        log := log σ ++ [EvCollectionAdd (ref this) w] |}).
Proof.
  unfold CollectionRef.add, async, mbind, M_bind, bind, store_call; simpl.
  destruct (collection_add _ _ _ _) as [[d|e] wld]; done.
Qed.
End CollectionRun.

(** C1 (as amended).  The payload [add] hands to the store keeps every
    field the caller supplied with a value other than [undefined] (so
    [null], [false], [0] and the empty string are kept), and differs from
    the caller's payload at a field only where the value read for that
    field is [undefined] and the schema configures a default, which is
    then what is written. *)
Theorem add_fills_only_undefined_fields {World} (sdk : StoreAPI World)
    (this : AdminBaseCollectionRef) (data : gmap string value) (σ : State World) :
  ∃ written,
    log (CollectionRef.add sdk this data σ).2 =
      log σ ++ [EvCollectionAdd (ref this) written] ∧
    written = applyDefaults (schema this) data ∧
    ∀ f,
      (∀ v, data !! f = Some v → v ≠ VUndefined → written !! f = Some v) ∧
      (written !! f ≠ data !! f →
         js_get data f = VUndefined ∧
         ∃ fieldDef, schema_fields (schema this) !! f = Some fieldDef ∧
           ((read_defaultValue fieldDef = VString "serverTimestamp" ∧
             written !! f = Some (VFieldValue FVServerTimestamp)) ∨
            (read_defaultValue fieldDef ≠ VString "serverTimestamp" ∧
             read_defaultValue fieldDef ≠ VUndefined ∧
             written !! f = Some (read_defaultValue fieldDef)))).
Proof.
  exists (applyDefaults (schema this) data). split_and!; [|done|].
  - rewrite add_run. simpl. by destruct (collection_add _ _ _ _).
  - intros f. split.
    + intros v. apply applyDefaults_keeps_defined.
    + apply applyDefaults_changes_only_undefined.
Qed.

(** The amended C1 at the payload [{name: "x", status: null, score: 0}]:
    the falsy values reach the write. *)
Lemma add_fills_only_undefined_fields_witness :
  ∃ written,
    log (CollectionRef.add mock_sdk (items_handle (Some status_score_schema))
           payload_with_falsy_values (initial_state 0)).2 =
      [EvCollectionAdd (ref (items_handle (Some status_score_schema))) written] ∧
    written !! "status" = Some VNull ∧ written !! "score" = Some (VNumber 0).
Proof.
  destruct (add_fills_only_undefined_fields mock_sdk
              (items_handle (Some status_score_schema))
              payload_with_falsy_values (initial_state 0))
    as (written & Hlog & _ & Hf).
  exists written. split; [exact Hlog|]. split.
  - apply (proj1 (Hf "status") VNull); [reflexivity|discriminate].
  - apply (proj1 (Hf "score") (VNumber 0)); [reflexivity|discriminate].
Defined.

(** C1 as stated fails: a field present in the payload with the value
    [undefined] is overwritten by its default. *)
Lemma explicit_undefined_is_overwritten :
  payload_with_explicit_undefined !! "status" = Some VUndefined ∧
  applyDefaults (Some status_score_schema) payload_with_explicit_undefined !! "status"
    = Some (VString "inactive") ∧
  ¬ present_fields_unchanged.
Proof.
  split_and!; [reflexivity|reflexivity|].
  intros H.
  specialize (H (Some status_score_schema) payload_with_explicit_undefined
                "status" VUndefined eq_refl).
  vm_compute in H. discriminate H.
Qed.

(** The two payloads of the specification's default-value example. *)
Example applyDefaults_fills_absent_fields :
  applyDefaults (Some status_score_schema) payload_name_only =
    list_to_map [ ("name", VString "x"); ("status", VString "inactive");
                  ("score", VNumber 0) ].
Proof. vm_compute. reflexivity. Qed.

Example applyDefaults_keeps_present_field :
  applyDefaults (Some status_score_schema) payload_name_status =
    list_to_map [ ("name", VString "x"); ("status", VString "active");
                  ("score", VNumber 0) ].
Proof. vm_compute. reflexivity. Qed.

(** C10.  The failing input: a schema field named [constructor] with the
    default ["serverTimestamp"] and a payload without that field.  The
    read [dataWithDefaults["constructor"]] finds the inherited
    [Object.prototype.constructor], so no sentinel is installed, while the
    field [createdAt] of the same schema gets it. *)
Theorem inherited_name_gets_no_server_timestamp :
  payload_name_only !! "constructor" = None ∧
  (fields timestamped_schema !! "constructor" ≫= defaultValue)
    = Some (VString "serverTimestamp") ∧
  applyDefaults (Some timestamped_schema) payload_name_only !! "constructor" = None ∧
  applyDefaults (Some timestamped_schema) payload_name_only !! "createdAt"
    = Some (VFieldValue FVServerTimestamp).
Proof. split_and!; reflexivity. Qed.

(** Away from the inherited names the marker string does install the
    sentinel for an absent field. *)
Lemma serverTimestamp_default_installed sch (data : gmap string value) f fieldDef :
  schema_fields sch !! f = Some fieldDef →
  read_defaultValue fieldDef = VString "serverTimestamp" →
  data !! f = None →
  Object_prototype !! f = None →
  applyDefaults sch data !! f = Some (VFieldValue FVServerTimestamp).
Proof.
  intros Hf Hd Habs Hproto. rewrite applyDefaults_lookup. unfold filled.
  rewrite Hf. unfold js_get, installed_default. by rewrite Habs, Hproto, Hd.
Qed.

(** The marker string itself is never written as a default. *)
Lemma serverTimestamp_string_never_installed sch (data : gmap string value) f :
  applyDefaults sch data !! f = Some (VString "serverTimestamp") →
  data !! f = Some (VString "serverTimestamp").
Proof.
  rewrite applyDefaults_lookup. unfold filled, installed_default.
  destruct (schema_fields sch !! f) as [fd|]; [|done].
  destruct (is_undefined (js_get data f)); [|done].
  destruct (strict_eq_string (read_defaultValue fd) "serverTimestamp") eqn:Hts; [done|].
  destruct (is_undefined (read_defaultValue fd)); [done|].
  intros [= Heq]. by rewrite Heq in Hts.
Qed.

(** ** set *)

Lemma isMerge_requests_merge options : isMerge options = true ↔ requests_merge options.
Proof.
  unfold isMerge, requests_merge. destruct options as [o|].
  - unfold js_in, js_get.
    replace (bool_decide (is_Some (Object_prototype !! "merge"))) with false
      by (symmetry; apply bool_decide_eq_false; by intros [? [=]]).
    replace (bool_decide (is_Some (Object_prototype !! "mergeFields"))) with false
      by (symmetry; apply bool_decide_eq_false; by intros [? [=]]).
    rewrite !orb_false_r, orb_true_iff, andb_true_iff, !bool_decide_eq_true.
    split.
    + intros [[_ Hm]|Hf]; exists o; (split; [done|]); [left|by right].
      destruct (o !! "merge") as [v|]; [|done].
      destruct v as [| |[]| | | | | | | ]; done.
    + intros (o' & [= <-] & [Hm|Hf]); [left|by right].
      rewrite Hm. by split; [eexists|].
  - split; [done|]. by intros (o & [=] & _).
Qed.

Section SetRun.
Context {World : Type} (sdk : StoreAPI World).

Lemma set_run this id data options σ docRef w1 :
  collection_doc sdk (ref this) id (world σ) = (Returned docRef, w1) →
  CollectionRef.set sdk this id data options σ =
    let written :=
      if isMerge options then data else applyDefaults (schema this) data in
    let '(p, w2) := document_set sdk docRef written (default ∅ options) w1 in
    (Returned p,
     {| world := w2; heap := heap σ;
        log := log σ ++ [EvCollectionDoc (ref this) id;
                         EvDocumentSet docRef written (default ∅ options)] |}).
Proof.
  intros Hdoc.
  unfold CollectionRef.set, CollectionRef.doc, async, mbind, M_bind, bind,
    store_call, store_call_sync; simpl.
  rewrite Hdoc; simpl.
  destruct (isMerge options); simpl;
    destruct (document_set _ _ _ _ _) as [[r|e] w2]; simpl;
    by rewrite <- app_assoc.
Qed.
End SetRun.

(** C2.  Once [doc(id)] has given the document reference, [set] logs one
    [set] call on it, with the options given or [{}] when there are none.
    The payload of that call is the caller's payload when the options
    request a merge, and otherwise the payload [add] writes for the same
    data; the promise returned is the store's. *)
Theorem set_skips_defaults_exactly_on_merge {World} (sdk : StoreAPI World)
    (this : AdminBaseCollectionRef) (id : string) (data : gmap string value)
    (options : option (gmap string value)) (σ : State World)
    (docRef : DocumentReference) (w1 : World) :
  collection_doc sdk (ref this) id (world σ) = (Returned docRef, w1) →
  ∃ written,
    log (CollectionRef.set sdk this id data options σ).2 =
      log σ ++ [EvCollectionDoc (ref this) id;
                EvDocumentSet docRef written (default ∅ options)] ∧
    (CollectionRef.set sdk this id data options σ).1 =
      Returned (document_set sdk docRef written (default ∅ options) w1).1 ∧
    (requests_merge options → written = data) ∧
    (¬ requests_merge options →
       written = applyDefaults (schema this) data ∧
       log (CollectionRef.add sdk this data σ).2 =
         log σ ++ [EvCollectionAdd (ref this) written]).
Proof.
  intros Hdoc.
  exists (if isMerge options then data else applyDefaults (schema this) data).
  rewrite (set_run sdk this id data options σ docRef w1 Hdoc). simpl.
  destruct (document_set _ _ _ _ _) as [p w2] eqn:Hset; simpl.
  split_and!; [done|done| |].
  - intros Hm. apply isMerge_requests_merge in Hm. by rewrite Hm.
  - intros Hm.
    assert (isMerge options = false) as ->.
    { destruct (isMerge options) eqn:E; [|done].
      by apply isMerge_requests_merge in E. }
    split; [done|]. rewrite add_run. simpl. by destruct (collection_add _ _ _ _).
Qed.

(** C2 at [set(id, {score: 5}, {merge: true})]: exactly [{score: 5}] is
    written. *)
Lemma set_skips_defaults_exactly_on_merge_witness :
  ∃ written,
    log (CollectionRef.set mock_sdk (items_handle (Some status_score_schema))
           "test-doc-123" payload_score_only (Some options_merge_true)
           (initial_state 0)).2 =
      [EvCollectionDoc (ref (items_handle (Some status_score_schema))) "test-doc-123";
       EvDocumentSet {| dref_id := "test-doc-123"; dref_path := "test-items/test-doc-123" |}
         written options_merge_true] ∧
    written = payload_score_only.
Proof.
  destruct (set_skips_defaults_exactly_on_merge mock_sdk
              (items_handle (Some status_score_schema)) "test-doc-123"
              payload_score_only (Some options_merge_true) (initial_state 0)
              {| dref_id := "test-doc-123"; dref_path := "test-items/test-doc-123" |}
              0 eq_refl) as (written & Hlog & _ & Hmerge & _).
  exists written. split; [exact Hlog|].
  apply Hmerge. exists options_merge_true. split; [reflexivity|].
  left. reflexivity.
Defined.

(** ** get *)

Section GetRun.
Context {World : Type} (sdk : StoreAPI World).

Lemma get_run this id σ docRef w1 :
  collection_doc sdk (ref this) id (world σ) = (Returned docRef, w1) →
  CollectionRef.get sdk this id σ =
    let '(p, w2) := document_get sdk docRef w1 in
    (Returned
       match p with
       | Resolved snapshot =>
           Resolved (if snapshot_exists snapshot then snapshot_data snapshot else None)
       | Rejected e => Rejected e
       end,
     {| world := w2; heap := heap σ;
        log := log σ ++ [EvCollectionDoc (ref this) id; EvDocumentGet docRef] |}).
Proof.
  intros Hdoc.
  unfold CollectionRef.get, CollectionRef.doc, async, mbind, M_bind, bind,
    store_call, store_call_sync; simpl.
  rewrite Hdoc; simpl.
  destruct (document_get _ _ _) as [[s|e] w2]; simpl; by rewrite <- app_assoc.
Qed.
End GetRun.

(** C3.  Once [doc(id)] has given the document reference, [get] returns a
    promise and never throws.  When the store's read resolves with a
    snapshot, the promise resolves: to the snapshot's data if the document
    exists, to [undefined] if it does not.  It is rejected only when the
    store's read is, and then with the store's reason. *)
Theorem get_absent_document_is_undefined {World} (sdk : StoreAPI World)
    (this : AdminBaseCollectionRef) (id : string) (σ : State World)
    (docRef : DocumentReference) (w1 : World) :
  collection_doc sdk (ref this) id (world σ) = (Returned docRef, w1) →
  ∃ promise,
    (CollectionRef.get sdk this id σ).1 = Returned promise ∧
    (∀ snapshot, (document_get sdk docRef w1).1 = Resolved snapshot →
       snapshot_exists snapshot = true → promise = Resolved (snapshot_data snapshot)) ∧
    (∀ snapshot, (document_get sdk docRef w1).1 = Resolved snapshot →
       snapshot_exists snapshot = false → promise = Resolved None) ∧
    (∀ e, promise = Rejected e ↔ (document_get sdk docRef w1).1 = Rejected e).
Proof.
  intros Hdoc. rewrite (get_run sdk this id σ docRef w1 Hdoc).
  destruct (document_get sdk docRef w1) as [p w2]; simpl.
  eexists. split; [reflexivity|].
  split_and!.
  - intros s -> Hex. by rewrite Hex.
  - intros s -> Hex. by rewrite Hex.
  - intros e. destruct p as [s|e'].
    + split; intros H; discriminate H.
    + split; intros [= ->]; reflexivity.
Qed.

(** C3 on the mock store: a read that finds no document, and a read that
    finds [{name: "Fetched Item"}]. *)
Lemma get_absent_document_is_undefined_witness :
  (CollectionRef.get mock_sdk (items_handle None) "test-doc-123" (initial_state 0)).1
    = Returned (Resolved None) ∧
  (CollectionRef.get (mock_sdk_with_snapshot fetched_snapshot) (items_handle None)
     "test-doc-123" (initial_state 0)).1
    = Returned (Resolved (snapshot_data fetched_snapshot)).
Proof.
  split.
  - destruct (get_absent_document_is_undefined mock_sdk (items_handle None)
                "test-doc-123" (initial_state 0) items_document 0 eq_refl)
      as (promise & Hrun & _ & Habsent & _).
    rewrite Hrun. f_equal.
    exact (Habsent {| snapshot_exists := false; snapshot_data := None |}
             eq_refl eq_refl).
  - destruct (get_absent_document_is_undefined (mock_sdk_with_snapshot fetched_snapshot)
                (items_handle None) "test-doc-123" (initial_state 0)
                items_document 0 eq_refl)
      as (promise & Hrun & Hexists & _ & _).
    rewrite Hrun. f_equal.
    exact (Hexists fetched_snapshot eq_refl eq_refl).
Defined.

(** ** subCollection *)

Lemma string_app_assoc (a b c : string) : (a +:+ b) +:+ c = a +:+ b +:+ c.
Proof. induction a as [|x a IH]; [done|]. change (String x ((a +:+ b) +:+ c) = String x (a +:+ b +:+ c)). by f_equal. Qed.

Lemma not_found_message_mentions name coll :
  mentions (not_found_message name coll) name ∧
  mentions (not_found_message name coll) coll.
Proof.
  unfold mentions, not_found_message. split.
  - by exists "Sub-collection '", ("' not found in schema for collection '" +:+ coll +:+ "'").
  - exists ("Sub-collection '" +:+ name +:+ "' not found in schema for collection '"), "'".
    by rewrite !string_app_assoc.
Qed.

Lemma class_missing_message_mentions name coll :
  mentions (class_missing_message name coll) name ∧
  mentions (class_missing_message name coll) coll.
Proof.
  unfold mentions, class_missing_message. split.
  - by exists "Collection class definition missing for sub-collection '",
      ("' in schema for collection '" +:+ coll +:+ "'").
  - exists ("Collection class definition missing for sub-collection '" +:+ name +:+
            "' in schema for collection '"), "'".
    by rewrite !string_app_assoc.
Qed.

Section SubCollectionRun.
Context {World Instance : Type}.
Context (sdk : StoreAPI World) (construct : Constructors World Instance).

(** In every misconfigured case the call throws one of the two errors
    and leaves the state, hence the call log, as it was. *)
Lemma subCollection_misconfigured_run this parentId name cls subSchema σ :
  subCollection_misconfigured (schema this) name →
  CollectionRef.subCollection sdk construct this parentId name cls subSchema σ =
    (Thrown (Error (not_found_message name (cref_id (ref this)))), σ) ∨
  CollectionRef.subCollection sdk construct this parentId name cls subSchema σ =
    (Thrown (Error (class_missing_message name (cref_id (ref this)))), σ).
Proof.
  unfold CollectionRef.subCollection, read_subCollection.
  intros [Hnone|[(table & Htab & Habs)|(table & d & Htab & Hd & Hcls)]].
  - rewrite Hnone. by left.
  - rewrite Htab, Habs.
    destruct (truthy (default VUndefined (Object_prototype !! name))); [by right|by left].
  - rewrite Htab, Hd, Hcls. by right.
Qed.
End SubCollectionRun.

(** C4.  When the schema has no sub-collection table, or no entry for the
    name, or an entry without a class, [subCollection] throws (it is not an
    [async] function) an [Error] whose message contains the sub-collection
    name and the collection's id, and the state is unchanged: nothing was
    logged, so [doc(parentId)] was not called. *)
Theorem subCollection_misconfigured_throws {World Instance : Type}
    (sdk : StoreAPI World) (construct : Constructors World Instance)
    (this : AdminBaseCollectionRef) (parentId name : string)
    (cls : value) (subSchema : option CollectionSchema) (σ : State World) :
  subCollection_misconfigured (schema this) name →
  ∃ msg,
    CollectionRef.subCollection sdk construct this parentId name cls subSchema σ
      = (Thrown (Error msg), σ) ∧
    mentions msg name ∧ mentions msg (cref_id (ref this)).
Proof.
  intros H.
  destruct (subCollection_misconfigured_run sdk construct this parentId name
              cls subSchema σ H) as [Hrun|Hrun]; rewrite Hrun.
  - eexists. split; [done|]. apply not_found_message_mentions.
  - eexists. split; [done|]. apply class_missing_message_mentions.
Qed.

(** C4 at the name [non-existent-sub] of the unit test. *)
Lemma subCollection_misconfigured_throws_witness :
  ∃ msg,
    CollectionRef.subCollection mock_sdk mock_construct
      (items_handle (Some parent_schema)) "parent-123" "non-existent-sub"
      (VFunction "MockSubCollection") None (initial_state 0)
      = (Thrown (Error msg), initial_state 0) ∧
    mentions msg "non-existent-sub" ∧ mentions msg "test-items".
Proof.
  apply (subCollection_misconfigured_throws mock_sdk mock_construct
           (items_handle (Some parent_schema)) "parent-123" "non-existent-sub"
           (VFunction "MockSubCollection") None (initial_state 0)).
  right. left. exists (default ∅ (subCollections parent_schema)).
  split; reflexivity.
Defined.

(** The three failures on the schema of the unit tests: a name that is not
    in the table, an entry without a class, and a name that is not in the
    table but is found on the prototype chain. *)
Example subCollection_unknown_name :
  CollectionRef.subCollection mock_sdk mock_construct
    (items_handle (Some parent_schema)) "parent-123" "non-existent-sub"
    (VFunction "MockSubCollection") None (initial_state 0)
  = (Thrown (Error
       "Sub-collection 'non-existent-sub' not found in schema for collection 'test-items'"),
     initial_state 0).
Proof. reflexivity. Qed.

Example subCollection_entry_without_class :
  CollectionRef.subCollection mock_sdk mock_construct
    (items_handle (Some parent_schema)) "parent-123" "unregistered"
    (VFunction "MockSubCollection") (Some sub_items_schema) (initial_state 0)
  = (Thrown (Error
       "Collection class definition missing for sub-collection 'unregistered' in schema for collection 'test-items'"),
     initial_state 0).
Proof. reflexivity. Qed.

Example subCollection_inherited_name :
  CollectionRef.subCollection mock_sdk mock_construct
    (items_handle (Some parent_schema)) "parent-123" "constructor"
    (VFunction "MockSubCollection") None (initial_state 0)
  = (Thrown (Error
       "Collection class definition missing for sub-collection 'constructor' in schema for collection 'test-items'"),
     initial_state 0).
Proof. reflexivity. Qed.

(** C9.  With an entry for the name whose class is set, and once
    [doc(parentId)] has given the parent reference, [subCollection] is the
    call [new C(firestore, name, entry.schema, parentDocRef)] of the class
    [C] of the entry; the class and the schema passed by the caller do not
    appear in it. *)
Theorem subCollection_uses_registered_constructor {World Instance : Type}
    (sdk : StoreAPI World) (construct : Constructors World Instance)
    (this : AdminBaseCollectionRef) (parentId name : string)
    (SubCollectionClass : value) (subSchema : option CollectionSchema)
    (σ : State World) (table : gmap string SubCollectionDef)
    (d : SubCollectionDef) (parentDocRef : DocumentReference) (w1 : World) :
  schema this ≫= subCollections = Some table →
  table !! name = Some d →
  truthy (collectionClass d) = true →
  collection_doc sdk (ref this) parentId (world σ) = (Returned parentDocRef, w1) →
  CollectionRef.subCollection sdk construct this parentId name
      SubCollectionClass subSchema σ =
    construct (collectionClass d) (firestore this) name (sub_schema d)
      (Some parentDocRef)
      {| world := w1; heap := heap σ;
         log := log σ ++ [EvCollectionDoc (ref this) parentId;
                          EvNew (collectionClass d) (firestore this) name
                            (sub_schema d) (Some parentDocRef)] |}.
Proof.
  intros Htab Hd Hcls Hdoc.
  unfold CollectionRef.subCollection, read_subCollection.
  rewrite Htab, Hd, Hcls. simpl.
  unfold CollectionRef.doc, CollectionRef.js_new, mbind, M_bind, bind,
    store_call_sync, emit; simpl.
  rewrite Hdoc; simpl. by rewrite <- app_assoc.
Qed.

(** C9 on the schema of the unit test: the class passed by the caller is
    not registered anywhere, the one of the table entry is instantiated. *)
Lemma subCollection_uses_registered_constructor_witness :
  CollectionRef.subCollection mock_sdk mock_construct
    (items_handle (Some parent_schema)) "parent-123" "sub-items"
    (VFunction "SomeOtherClass") None (initial_state 0)
  = (Returned
       {| ref := {| cref_id := "sub-items";
                    cref_path := "test-items/parent-123/sub-items" |};
          firestore := mock_firestore; collectionId := "sub-items";
          schema := Some sub_items_schema |},
     {| world := 0; heap := ∅;
        log := [EvCollectionDoc (ref (items_handle (Some parent_schema))) "parent-123";
                EvNew (VFunction "MockSubCollection") mock_firestore "sub-items"
                  (Some sub_items_schema)
                  (Some {| dref_id := "parent-123"; dref_path := "test-items/parent-123" |});
                EvDocumentCollection
                  {| dref_id := "parent-123"; dref_path := "test-items/parent-123" |}
                  "sub-items"] |}).
Proof.
  rewrite (subCollection_uses_registered_constructor mock_sdk mock_construct
             (items_handle (Some parent_schema)) "parent-123" "sub-items"
             (VFunction "SomeOtherClass") None (initial_state 0)
             (default ∅ (subCollections parent_schema))
             (mkSubCollectionDef (Some sub_items_schema) (VFunction "MockSubCollection"))
             {| dref_id := "parent-123"; dref_path := "test-items/parent-123" |} 0
             eq_refl eq_refl eq_refl eq_refl).
  reflexivity.
Defined.

(** ** The builders: immutability *)

Section BuilderRun.
Context {World : Type} (sdk : StoreAPI World).

Lemma addConstraintDefinition_run (σ : State World) b o definition :
  heap σ !! b = Some (HQueryBuilder o) →
  QueryBuilder.addConstraintDefinition b definition σ =
    (Returned (fresh (dom (heap σ))),
     {| world := world σ;
        heap := <[fresh (dom (heap σ)) := HQueryBuilder (appended o definition)]> (heap σ);
        log := log σ |}).
Proof.
  intros Hb.
  unfold QueryBuilder.addConstraintDefinition, this_query_builder, alloc,
    store_object, mbind, M_bind, bind, mret, M_ret, ret; simpl.
  rewrite Hb; simpl. by rewrite insert_insert_eq.
Qed.

Lemma invoke_query_call_run (σ : State World) b o c :
  heap σ !! b = Some (HQueryBuilder o) →
  invoke_query_call b c σ =
    (Returned (fresh (dom (heap σ))),
     {| world := world σ;
        heap := <[fresh (dom (heap σ)) :=
                    HQueryBuilder (appended o (recorded_descriptor c))]> (heap σ);
        log := log σ |}).
Proof.
  intros Hb. destruct c; simpl;
    unfold QueryBuilder._where, QueryBuilder.orderBy, QueryBuilder.limit,
      QueryBuilder.limitToLast, QueryBuilder.startAt, QueryBuilder.startAfter,
      QueryBuilder.endBefore, QueryBuilder.endAt;
    by apply addConstraintDefinition_run.
Qed.

Lemma _set_run (σ : State World) b o fieldPath v :
  heap σ !! b = Some (HUpdateBuilder o) →
  UpdateBuilder._set b fieldPath v σ =
    (Returned (fresh (dom (heap σ))),
     {| world := world σ;
        heap := <[fresh (dom (heap σ)) := HUpdateBuilder (recorded o fieldPath v)]> (heap σ);
        log := log σ |}).
Proof.
  intros Hb.
  unfold UpdateBuilder._set, this_update_builder, alloc, store_object,
    mbind, M_bind, bind, mret, M_ret, ret; simpl.
  rewrite Hb; simpl. by rewrite insert_insert_eq.
Qed.

Lemma invoke_update_call_run (σ : State World) b o c :
  call_accepted c = true →
  heap σ !! b = Some (HUpdateBuilder o) →
  invoke_update_call b c σ =
    (Returned (fresh (dom (heap σ))),
     {| world := world σ;
        heap := <[fresh (dom (heap σ)) :=
                    HUpdateBuilder (recorded o (call_path c) (call_value c))]> (heap σ);
        log := log σ |}).
Proof.
  intros Hc Hb. destruct c as [p v|p n|p [|v vs]|p [|v vs]|p|p]; try done; simpl;
    unfold UpdateBuilder._increment, UpdateBuilder._arrayUnion,
      UpdateBuilder._arrayRemove, UpdateBuilder._serverTimestamp,
      UpdateBuilder._deleteField;
    by apply _set_run.
Qed.

(** A call the SDK does not accept throws before anything is recorded. *)
Lemma invoke_update_call_rejected (σ : State World) b c :
  call_accepted c = false →
  invoke_update_call b c σ = (Thrown (call_error c), σ).
Proof. by destruct c as [p v|p n|p [|v vs]|p [|v vs]|p|p]. Qed.

Lemma fresh_location_differs (σ : State World) b ho :
  heap σ !! b = Some ho → fresh (dom (heap σ)) ≠ b.
Proof.
  intros Hb Heq. apply (is_fresh (dom (heap σ))).
  rewrite Heq. apply elem_of_dom. by eexists.
Qed.

(** Every case of the [switch] is one native call on the current query. *)
Lemma buildQuery_case_is_native def :
  ∃ m, ∀ q, QueryBuilder.buildQuery_case sdk q def = QueryBuilder.native sdk q m.
Proof. destruct def as [| |[]|[]]; eexists; reflexivity. Qed.

(** The native chain does not look at the heap. *)
Lemma forEach_frame defs q (σ : State World) h :
  QueryBuilder.forEach sdk defs q {| world := world σ; heap := h; log := log σ |} =
    let '(r, σ1) := QueryBuilder.forEach sdk defs q σ in
    (r, {| world := world σ1; heap := h; log := log σ1 |}).
Proof.
  revert q σ. induction defs as [|def defs IH]; intros q σ; simpl; [done|].
  destruct (buildQuery_case_is_native def) as [m Hm].
  unfold mbind, M_bind, bind. rewrite !Hm.
  unfold QueryBuilder.native, store_call_sync; simpl.
  destruct (query_method _ _ _ _) as [[q'|e] w]; simpl; [|done].
  apply (IH q' {| world := w; heap := heap σ; log := _ |}).
Qed.
End BuilderRun.

Section Immutability.
Context {World : Type} (sdk : StoreAPI World).

Lemma buildQuery_run (σ : State World) b o :
  heap σ !! b = Some (HQueryBuilder o) →
  QueryBuilder.buildQuery sdk b σ =
    QueryBuilder.forEach sdk (constraintDefinitions o)
      (QueryOfCollection (collectionRef o)) σ.
Proof.
  intros Hb.
  unfold QueryBuilder.buildQuery, this_query_builder, mbind, M_bind, bind.
  by rewrite Hb.
Qed.

Lemma Object_keys_empty (m : gmap string value) :
  length (Object_keys m) = 0 ↔ m = ∅.
Proof.
  unfold Object_keys. rewrite length_fmap, length_zero_iff_nil.
  apply map_to_list_empty_iff.
Qed.

Lemma commit_run (σ : State World) b o :
  heap σ !! b = Some (HUpdateBuilder o) →
  UpdateBuilder.commit sdk b σ =
    if bool_decide (_updateData o = ∅)
    then (Returned (Resolved {| writeTime := None |}),
          {| world := world σ; heap := heap σ;
             log := log σ ++
               [EvConsoleWarn "Update commit called with no changes specified."] |})
    else
      let '(p, w) := document_update sdk (_docRef o) (_updateData o) (world σ) in
      (Returned p,
       {| world := w; heap := heap σ;
          log := log σ ++ [EvDocumentUpdate (_docRef o) (_updateData o)] |}).
Proof.
  intros Hb.
  unfold UpdateBuilder.commit, this_update_builder, async, mbind, M_bind, bind,
    store_call, emit; simpl.
  rewrite Hb; simpl.
  rewrite (bool_decide_ext _ _ (Object_keys_empty (_updateData o))).
  destruct (bool_decide (_updateData o = ∅)); simpl; [done|].
  destruct (document_update _ _ _ _) as [[r|e] w]; done.
Qed.

Lemma query_call_immutable (σ : State World) b o c :
  heap σ !! b = Some (HQueryBuilder o) →
  ∃ b2 σ',
    invoke_query_call b c σ = (Returned b2, σ') ∧
    b2 ≠ b ∧
    heap σ' !! b = Some (HQueryBuilder o) ∧
    heap σ' !! b2 = Some (HQueryBuilder (appended o (recorded_descriptor c))) ∧
    (∀ l, l ≠ b2 → heap σ' !! l = heap σ !! l) ∧
    world σ' = world σ ∧ log σ' = log σ ∧
    QueryBuilder.buildQuery sdk b σ' =
      (let '(r, σ1) := QueryBuilder.buildQuery sdk b σ in
       (r, {| world := world σ1; heap := heap σ'; log := log σ1 |})).
Proof.
  intros Hb. pose proof (fresh_location_differs σ b _ Hb) as Hne.
  set (σ' := {| world := world σ;
                heap := <[fresh (dom (heap σ)) :=
                            HQueryBuilder (appended o (recorded_descriptor c))]> (heap σ);
                log := log σ |}).
  exists (fresh (dom (heap σ))), σ'.
  split; [by apply invoke_query_call_run|].
  assert (heap σ' !! b = Some (HQueryBuilder o)) as Hb'
    by (simpl; by rewrite lookup_insert_ne).
  split_and!; [done|done|by apply lookup_insert_eq| |done|done|].
  - intros l Hl. simpl. by rewrite lookup_insert_ne.
  - rewrite (buildQuery_run σ' b o Hb'), (buildQuery_run σ b o Hb).
    apply (forEach_frame sdk _ _ σ).
Qed.

Lemma update_call_immutable (σ : State World) b o c :
  call_accepted c = true →
  heap σ !! b = Some (HUpdateBuilder o) →
  ∃ b2 σ',
    invoke_update_call b c σ = (Returned b2, σ') ∧
    b2 ≠ b ∧
    heap σ' !! b = Some (HUpdateBuilder o) ∧
    heap σ' !! b2 = Some (HUpdateBuilder (recorded o (call_path c) (call_value c))) ∧
    (∀ l, l ≠ b2 → heap σ' !! l = heap σ !! l) ∧
    world σ' = world σ ∧ log σ' = log σ ∧
    UpdateBuilder.commit sdk b σ' =
      (let '(r, σ1) := UpdateBuilder.commit sdk b σ in
       (r, {| world := world σ1; heap := heap σ'; log := log σ1 |})).
Proof.
  intros Hc Hb. pose proof (fresh_location_differs σ b _ Hb) as Hne.
  set (σ' := {| world := world σ;
                heap := <[fresh (dom (heap σ)) :=
                            HUpdateBuilder (recorded o (call_path c) (call_value c))]>
                          (heap σ);
                log := log σ |}).
  exists (fresh (dom (heap σ))), σ'.
  split; [by apply invoke_update_call_run|].
  assert (heap σ' !! b = Some (HUpdateBuilder o)) as Hb'
    by (simpl; by rewrite lookup_insert_ne).
  split_and!; [done|done|by apply lookup_insert_eq| |done|done|].
  - intros l Hl. simpl. by rewrite lookup_insert_ne.
  - rewrite (commit_run σ' b o Hb'), (commit_run σ b o Hb). simpl.
    destruct (bool_decide (_updateData o = ∅)); [done|].
    by destruct (document_update _ _ _ _).
Qed.
End Immutability.

(** C5.  A constraint-adding call on a query builder [b], and an
    operation-adding call on an update builder [b] that the SDK accepts,
    return a location [b2] different from [b]; the object at [b], with its
    descriptor sequence or update map, is what it was, and so is every
    other object; [b2] holds the fields of [b] with the one descriptor
    appended, or the one entry set.  Realizing [b] afterwards
    ([buildQuery], [commit]) does what it would have done before.  The
    other update calls ([arrayUnion] and [arrayRemove] of no element) throw
    and produce no builder: the state, and [b] with it, is unchanged. *)
Theorem builder_calls_return_new_instance {World} (sdk : StoreAPI World)
    (σ : State World) (b : loc) :
  (∀ o (c : QueryCall),
     heap σ !! b = Some (HQueryBuilder o) →
     ∃ b2 σ',
       invoke_query_call b c σ = (Returned b2, σ') ∧
       b2 ≠ b ∧
       heap σ' !! b = Some (HQueryBuilder o) ∧
       heap σ' !! b2 = Some (HQueryBuilder (appended o (recorded_descriptor c))) ∧
       (∀ l, l ≠ b2 → heap σ' !! l = heap σ !! l) ∧
       world σ' = world σ ∧ log σ' = log σ ∧
       QueryBuilder.buildQuery sdk b σ' =
         (let '(r, σ1) := QueryBuilder.buildQuery sdk b σ in
          (r, {| world := world σ1; heap := heap σ'; log := log σ1 |}))) ∧
  (∀ o (c : UpdateCall),
     heap σ !! b = Some (HUpdateBuilder o) →
     (call_accepted c = true →
      ∃ b2 σ',
        invoke_update_call b c σ = (Returned b2, σ') ∧
        b2 ≠ b ∧
        heap σ' !! b = Some (HUpdateBuilder o) ∧
        heap σ' !! b2 = Some (HUpdateBuilder (recorded o (call_path c) (call_value c))) ∧
        (∀ l, l ≠ b2 → heap σ' !! l = heap σ !! l) ∧
        world σ' = world σ ∧ log σ' = log σ ∧
        UpdateBuilder.commit sdk b σ' =
          (let '(r, σ1) := UpdateBuilder.commit sdk b σ in
           (r, {| world := world σ1; heap := heap σ'; log := log σ1 |}))) ∧
     (call_accepted c = false →
      invoke_update_call b c σ = (Thrown (call_error c), σ))).
Proof.
  split; intros o c Hb.
  - by apply query_call_immutable.
  - split; intros Hc.
    + by apply update_call_immutable.
    + by apply invoke_update_call_rejected.
Qed.

(** C5 on the builders of the unit tests: [limit(5)] on a new query
    builder and [_set("name", "New Name")] on a new update builder. *)
Lemma builder_calls_return_new_instance_witness :
  (∃ b2 σ',
     invoke_query_call 1%positive (call_limit 5) new_query_builder_state
       = (Returned b2, σ') ∧
     b2 ≠ 1%positive ∧
     heap σ' !! 1%positive = heap new_query_builder_state !! 1%positive) ∧
  (∃ b2 σ',
     invoke_update_call 1%positive (call_set "name" (VString "New Name"))
       new_update_builder_state = (Returned b2, σ') ∧
     b2 ≠ 1%positive ∧
     heap σ' !! 1%positive = heap new_update_builder_state !! 1%positive).
Proof.
  split.
  - destruct (proj1 (builder_calls_return_new_instance mock_sdk
                       new_query_builder_state 1%positive)
                {| qb_prototype := "AdminBaseQueryBuilder"; qb_firestore := mock_firestore;
                   collectionRef := items_collection; constraintDefinitions := [] |}
                (call_limit 5) eq_refl)
      as (b2 & σ' & Hrun & Hne & Hold & _).
    exists b2, σ'. split; [exact Hrun|]. split; [exact Hne|]. exact Hold.
  - destruct (proj1 (proj2 (builder_calls_return_new_instance mock_sdk
                              new_update_builder_state 1%positive)
                       {| ub_prototype := "AdminBaseUpdateBuilder";
                          _docRef := items_document; _updateData := ∅ |}
                       (call_set "name" (VString "New Name")) eq_refl) eq_refl)
      as (b2 & σ' & Hrun & Hne & Hold & _).
    exists b2, σ'. split; [exact Hrun|]. split; [exact Hne|]. exact Hold.
Defined.

(** ** The query builder: realization *)

Section Realization.
Context {World : Type} (sdk : StoreAPI World).

Lemma query_chain_run calls : ∀ (σ : State World) b o,
  heap σ !! b = Some (HQueryBuilder o) →
  ∃ b' σ' o',
    query_chain b calls σ = (Returned b', σ') ∧
    heap σ' !! b' = Some (HQueryBuilder o') ∧
    collectionRef o' = collectionRef o ∧
    constraintDefinitions o' =
      constraintDefinitions o ++ map recorded_descriptor calls ∧
    world σ' = world σ ∧ log σ' = log σ.
Proof.
  induction calls as [|c calls IH]; intros σ b o Hb; simpl.
  - exists b, σ, o. by rewrite app_nil_r.
  - unfold mbind, M_bind, bind.
    rewrite (invoke_query_call_run σ b o c Hb).
    edestruct (IH {| world := world σ;
                     heap := <[fresh (dom (heap σ)) :=
                                 HQueryBuilder (appended o (recorded_descriptor c))]>
                               (heap σ);
                     log := log σ |}
                  (fresh (dom (heap σ))) (appended o (recorded_descriptor c)))
      as (b' & σ' & o' & Hrun & Hb' & Hc & Hdefs & Hw & Hl).
    { simpl. apply lookup_insert_eq. }
    exists b', σ', o'. split_and!; try done.
    rewrite Hdefs. simpl. by rewrite <- app_assoc.
Qed.

Lemma buildQuery_case_recorded q c :
  QueryBuilder.buildQuery_case sdk q (recorded_descriptor c) =
    QueryBuilder.native sdk q (expected_native c).
Proof. by destruct c. Qed.

Lemma forEach_replay calls : ∀ q (σ : State World),
  QueryBuilder.forEach sdk (map recorded_descriptor calls) q σ =
    let '(evs, r, w') := replay sdk (map expected_native calls) q (world σ) in
    (r, {| world := w'; heap := heap σ; log := log σ ++ evs |}).
Proof.
  induction calls as [|c calls IH]; intros q σ; simpl.
  - unfold mret, M_ret, ret. destruct σ; simpl. by rewrite app_nil_r.
  - unfold mbind, M_bind, bind. rewrite buildQuery_case_recorded.
    unfold QueryBuilder.native, store_call_sync.
    destruct (query_method sdk q (expected_native c) (world σ)) as [[q'|e] w]; [|done].
    rewrite IH. simpl.
    destruct (replay sdk (map expected_native calls) q' w) as [[evs r] w'].
    by rewrite <- app_assoc.
Qed.

Lemma replay_methods ms : ∀ q (w : World) evs q' w',
  replay sdk ms q w = (evs, Returned q', w') → native_methods evs = ms.
Proof.
  induction ms as [|m ms IH]; intros q w evs q' w'; simpl.
  - by intros [= <- _ _].
  - destruct (query_method sdk q m w) as [[q1|e] w1]; [|done].
    destruct (replay sdk ms q1 w1) as [[evs1 r1] w2] eqn:Hrest.
    intros [= <- -> ->]. unfold native_methods. simpl. f_equal.
    by apply (IH q1 w1 evs1 q' w').
Qed.
End Realization.

(** C6.  A builder made by the constructor and extended by any sequence
    of constraint-adding calls is realized by [buildQuery] as the replay of
    those calls on the store: the first native call is made on the
    collection reference, each next one on the query the previous call
    returned, one call per constraint and in the order of the chain, each
    with the method and the arguments of its constraint.  The chain itself
    makes no store call.  When no native call throws, the result is the
    last query returned and the methods logged are those of all the calls. *)
Theorem buildQuery_replays_calls_in_order {World} (sdk : StoreAPI World)
    (prototype : string) (fs : Firestore) (c : CollectionReference)
    (calls : list QueryCall) (σ : State World) :
  ∃ b σ1,
    (b0 ← QueryBuilder.new prototype fs c; query_chain b0 calls) σ = (Returned b, σ1) ∧
    world σ1 = world σ ∧ log σ1 = log σ ∧
    ∃ evs r w',
      replay sdk (map expected_native calls) (QueryOfCollection c) (world σ) = (evs, r, w') ∧
      QueryBuilder.buildQuery sdk b σ1 =
        (r, {| world := w'; heap := heap σ1; log := log σ ++ evs |}) ∧
      (∀ q, r = Returned q → native_methods evs = map expected_native calls).
Proof.
  unfold mbind, M_bind, bind, QueryBuilder.new, alloc.
  set (o := {| qb_prototype := prototype; qb_firestore := fs; collectionRef := c;
               constraintDefinitions := [] |}).
  set (σ0 := {| world := world σ;
                heap := <[fresh (dom (heap σ)) := HQueryBuilder o]> (heap σ);
                log := log σ |}).
  destruct (query_chain_run calls σ0 (fresh (dom (heap σ))) o)
    as (b & σ1 & o' & Hrun & Hb & Hc & Hdefs & Hw & Hl).
  { simpl. apply lookup_insert_eq. }
  exists b, σ1. split_and!; [done|done|done|].
  destruct (replay sdk (map expected_native calls) (QueryOfCollection c) (world σ))
    as [[evs r] w'] eqn:Hreplay.
  exists evs, r, w'. split_and!; [done| |].
  - rewrite (buildQuery_run sdk σ1 b o' Hb), Hdefs, Hc. simpl.
    rewrite forEach_replay, Hw. simpl. rewrite Hreplay. by rewrite Hl.
  - intros q ->. by apply (replay_methods sdk _ _ _ _ _ _ Hreplay).
Qed.

(** C6 on the chain [filter(A).orderBy(B).limit(5).startAfter(C)] of the
    specification, realized on the mock store: four native calls, in that
    order, each on the query the previous one returned. *)
Lemma buildQuery_replays_calls_in_order_witness :
  ∃ b σ1,
    (b0 ← QueryBuilder.new "AdminBaseQueryBuilder" mock_firestore items_collection;
     query_chain b0 filter_orderBy_limit_startAfter) (initial_state 0)
      = (Returned b, σ1) ∧
    QueryBuilder.buildQuery mock_sdk b σ1 =
      (Returned (QueryHandle 3),
       {| world := 4; heap := heap σ1;
          log := [ EvQuery (QueryOfCollection items_collection)
                     (native_where (FieldName "A") OpEq (VNumber 1));
                   EvQuery (QueryHandle 0) (native_orderBy (FieldName "B") asc);
                   EvQuery (QueryHandle 1) (native_limit 5);
                   EvQuery (QueryHandle 2) (native_startAfter [VString "C"]) ] |}).
Proof.
  destruct (buildQuery_replays_calls_in_order mock_sdk "AdminBaseQueryBuilder"
              mock_firestore items_collection filter_orderBy_limit_startAfter
              (initial_state 0))
    as (b & σ1 & Hrun & _ & _ & evs & r & w' & Hreplay & Hbuild & _).
  exists b, σ1. split; [exact Hrun|].
  rewrite Hbuild. vm_compute in Hreplay.
  injection Hreplay as <- <- <-. reflexivity.
Defined.

(** ** The update builder: accumulation and commit *)

Section Accumulation.
Context {World : Type} (sdk : StoreAPI World).

Lemma update_chain_run calls : ∀ (σ : State World) b o,
  Forall (λ c, call_accepted c = true) calls →
  heap σ !! b = Some (HUpdateBuilder o) →
  ∃ b' σ' o',
    update_chain b calls σ = (Returned b', σ') ∧
    heap σ' !! b' = Some (HUpdateBuilder o') ∧
    _docRef o' = _docRef o ∧
    _updateData o' =
      foldl (λ m c, <[call_path c := call_value c]> m) (_updateData o) calls ∧
    world σ' = world σ ∧ log σ' = log σ.
Proof.
  induction calls as [|c calls IH]; intros σ b o Hacc Hb; simpl.
  - by exists b, σ, o.
  - apply Forall_cons in Hacc as [Hc Hacc].
    unfold mbind, M_bind, bind.
    rewrite (invoke_update_call_run σ b o c Hc Hb).
    edestruct (IH {| world := world σ;
                     heap := <[fresh (dom (heap σ)) :=
                                 HUpdateBuilder (recorded o (call_path c) (call_value c))]>
                               (heap σ);
                     log := log σ |}
                  (fresh (dom (heap σ))) (recorded o (call_path c) (call_value c)) Hacc)
      as (b' & σ' & o' & Hrun & Hb' & Hd & Hm & Hw & Hl).
    { simpl. apply lookup_insert_eq. }
    by exists b', σ', o'.
Qed.

(** A chain is cut at the first call the SDK does not accept: the error
    of that call is thrown, and the store has not been called. *)
Lemma update_chain_throws pre c post : ∀ (σ : State World) b o,
  Forall (λ c, call_accepted c = true) pre →
  call_accepted c = false →
  heap σ !! b = Some (HUpdateBuilder o) →
  ∃ σ',
    update_chain b (pre ++ c :: post) σ = (Thrown (call_error c), σ') ∧
    world σ' = world σ ∧ log σ' = log σ.
Proof.
  induction pre as [|c0 pre IH]; intros σ b o Hacc Hc Hb; simpl.
  - unfold mbind, M_bind, bind. rewrite (invoke_update_call_rejected σ b c Hc).
    by exists σ.
  - apply Forall_cons in Hacc as [Hc0 Hacc].
    unfold mbind, M_bind, bind.
    rewrite (invoke_update_call_run σ b o c0 Hc0 Hb).
    edestruct (IH {| world := world σ;
                     heap := <[fresh (dom (heap σ)) :=
                                 HUpdateBuilder
                                   (recorded o (call_path c0) (call_value c0))]>
                               (heap σ);
                     log := log σ |}
                  (fresh (dom (heap σ))) (recorded o (call_path c0) (call_value c0))
                  Hacc Hc)
      as (σ' & Hrun & Hw & Hl).
    { simpl. apply lookup_insert_eq. }
    by exists σ'.
Qed.

Lemma last_recorded_cons p c calls :
  last_recorded p (c :: calls) =
    match last_recorded p calls with
    | Some v => Some v
    | None => if decide (call_path c = p) then Some (call_value c) else None
    end.
Proof.
  unfold last_recorded. rewrite filter_cons.
  destruct (decide (call_path c = p)) as [Hp|Hp]; [|by destruct (last _)].
  rewrite last_cons. by destruct (last _).
Qed.

Lemma foldl_insert_lookup calls : ∀ (m : gmap string value) p,
  foldl (λ m c, <[call_path c := call_value c]> m) m calls !! p =
    match last_recorded p calls with
    | Some v => Some v
    | None => m !! p
    end.
Proof.
  induction calls as [|c calls IH]; intros m p; simpl; [done|].
  rewrite IH, last_recorded_cons.
  destruct (last_recorded p calls); [done|].
  destruct (decide (call_path c = p)) as [<-|Hp].
  - apply lookup_insert_eq.
  - by apply lookup_insert_ne.
Qed.

Lemma last_recorded_head c calls :
  is_Some (last_recorded (call_path c) (c :: calls)).
Proof.
  rewrite last_recorded_cons.
  destruct (last_recorded _ calls); [by eexists|].
  rewrite decide_True by done. by eexists.
Qed.

Lemma update_calls_snoc evs ev :
  update_calls (evs ++ [ev]) =
    update_calls evs + (if is_update_call ev then 1 else 0).
Proof.
  unfold update_calls. rewrite List.filter_app, length_app. simpl.
  by destruct (is_update_call ev).
Qed.
End Accumulation.

(** C7.  After a chain of operation-adding calls on a new update builder,
    all of them accepted by the SDK, the map of the last builder has, for
    every field path, the value or sentinel of the last call made on that
    path, and no entry for a path no call was made on; when at least one
    call was made, [commit] sends exactly this map in one [update] call on
    the document.  A chain with a call the SDK does not accept
    ([arrayUnion] or [arrayRemove] of no element) throws at the first such
    call, so it gives no builder to commit, and it has called nothing on
    the store. *)
Theorem update_chain_last_write_wins {World} (sdk : StoreAPI World)
    (prototype : string) (docRef : DocumentReference)
    (calls : list UpdateCall) (σ : State World) :
  (Forall (λ c, call_accepted c = true) calls →
   ∃ b σ1 o,
     (b0 ← UpdateBuilder.new prototype docRef; update_chain b0 calls) σ
       = (Returned b, σ1) ∧
     heap σ1 !! b = Some (HUpdateBuilder o) ∧
     (∀ p, _updateData o !! p = last_recorded p calls) ∧
     (calls ≠ [] →
        log (UpdateBuilder.commit sdk b σ1).2 =
          log σ ++ [EvDocumentUpdate docRef (_updateData o)])) ∧
  (∀ pre c post,
     calls = pre ++ c :: post →
     Forall (λ c, call_accepted c = true) pre →
     call_accepted c = false →
     ∃ σ1,
       (b0 ← UpdateBuilder.new prototype docRef; update_chain b0 calls) σ
         = (Thrown (call_error c), σ1) ∧
       world σ1 = world σ ∧ log σ1 = log σ).
Proof.
  unfold mbind, M_bind, bind, UpdateBuilder.new, alloc.
  set (o0 := {| ub_prototype := prototype; _docRef := docRef; _updateData := ∅ |}).
  set (σ0 := {| world := world σ;
                heap := <[fresh (dom (heap σ)) := HUpdateBuilder o0]> (heap σ);
                log := log σ |}).
  assert (heap σ0 !! fresh (dom (heap σ)) = Some (HUpdateBuilder o0)) as Hb0
    by (simpl; apply lookup_insert_eq).
  split.
  - intros Hacc.
    destruct (update_chain_run calls σ0 (fresh (dom (heap σ))) o0 Hacc Hb0)
      as (b & σ1 & o & Hrun & Hb & Hd & Hm & Hw & Hl).
    assert (∀ p, _updateData o !! p = last_recorded p calls) as Hlast.
    { intros p. rewrite Hm, foldl_insert_lookup. simpl.
      rewrite lookup_empty. by destruct (last_recorded p calls). }
    exists b, σ1, o. split_and!; [done|done|done|].
    intros Hne. rewrite (commit_run sdk σ1 b o Hb).
    rewrite bool_decide_eq_false_2.
    + destruct (document_update _ _ _ _) as [p w]. simpl. by rewrite Hl, Hd.
    + intros Hempty. destruct calls as [|c calls]; [done|].
      destruct (last_recorded_head c calls) as [v Hv].
      rewrite <- Hlast, Hempty, lookup_empty in Hv. discriminate Hv.
  - intros pre c post -> Hacc Hc.
    destruct (update_chain_throws pre c post σ0 (fresh (dom (heap σ))) o0 Hacc Hc Hb0)
      as (σ1 & Hrun & Hw & Hl).
    by exists σ1.
Qed.

(** The chain [setField("count", 1).setField("count", 2)] of the
    specification: [commit] writes [count: 2] only. *)
Example commit_setField_twice :
  log ((b ← (b0 ← UpdateBuilder.new "AdminBaseUpdateBuilder" items_document;
             update_chain b0 setField_count_twice);
        UpdateBuilder.commit mock_sdk b) (initial_state 0)).2
  = [ EvDocumentUpdate items_document (list_to_map [ ("count", VNumber 2) ]) ].
Proof. vm_compute. reflexivity. Qed.

(** Two increments of one path are not added up. *)
Example commit_increment_twice :
  log ((b ← (b0 ← UpdateBuilder.new "AdminBaseUpdateBuilder" items_document;
             update_chain b0 [ call_increment "count" 1; call_increment "count" 5 ]);
        UpdateBuilder.commit mock_sdk b) (initial_state 0)).2
  = [ EvDocumentUpdate items_document
        (list_to_map [ ("count", VFieldValue (FVIncrement 5)) ]) ].
Proof. vm_compute. reflexivity. Qed.

(** C7 on the chain [setField("count", 1).setField("count", 2)], and on
    [setField("count", 1).arrayUnion("tags", [])]. *)
Lemma update_chain_last_write_wins_witness :
  (∃ b σ1 o,
     (b0 ← UpdateBuilder.new "AdminBaseUpdateBuilder" items_document;
      update_chain b0 setField_count_twice) (initial_state 0) = (Returned b, σ1) ∧
     _updateData o !! "count" = Some (VNumber 2) ∧
     _updateData o !! "name" = None ∧
     log (UpdateBuilder.commit mock_sdk b σ1).2 =
       [EvDocumentUpdate items_document (_updateData o)]) ∧
  (∃ σ1,
     (b0 ← UpdateBuilder.new "AdminBaseUpdateBuilder" items_document;
      update_chain b0 [call_set "count" (VNumber 1); call_arrayUnion "tags" []])
       (initial_state 0) = (Thrown (arity_error "arrayUnion"), σ1) ∧
     log σ1 = []).
Proof.
  split.
  - destruct (proj1 (update_chain_last_write_wins mock_sdk "AdminBaseUpdateBuilder"
                       items_document setField_count_twice (initial_state 0)))
      as (b & σ1 & o & Hrun & _ & Hlast & Hcommit).
    { repeat constructor. }
    exists b, σ1, o. split; [exact Hrun|]. split; [|split].
    + rewrite (Hlast "count"). reflexivity.
    + rewrite (Hlast "name"). reflexivity.
    + apply Hcommit. discriminate.
  - destruct (proj2 (update_chain_last_write_wins mock_sdk "AdminBaseUpdateBuilder"
                       items_document
                       [call_set "count" (VNumber 1); call_arrayUnion "tags" []]
                       (initial_state 0))
                [call_set "count" (VNumber 1)] (call_arrayUnion "tags" []) []
                eq_refl)
      as (σ1 & Hrun & _ & Hlog).
    { repeat constructor. }
    { reflexivity. }
    exists σ1. split; [exact Hrun|exact Hlog].
Defined.

(** C8.  [commit] on a builder whose map is empty logs the warning and
    nothing else, so no [update] call, and returns a promise resolved with
    the placeholder [{}]; on a builder whose map is not empty it makes one
    [update] call on the document reference with the whole map and returns
    the promise the store returned. *)
Theorem commit_empty_is_noop {World} (sdk : StoreAPI World)
    (σ : State World) (b : loc) (o : UpdateBuilderObject) :
  heap σ !! b = Some (HUpdateBuilder o) →
  (_updateData o = ∅ →
     UpdateBuilder.commit sdk b σ =
       (Returned (Resolved {| writeTime := None |}),
        {| world := world σ; heap := heap σ;
           log := log σ ++
             [EvConsoleWarn "Update commit called with no changes specified."] |}) ∧
     update_calls (log (UpdateBuilder.commit sdk b σ).2) = update_calls (log σ)) ∧
  (_updateData o ≠ ∅ →
     UpdateBuilder.commit sdk b σ =
       (Returned (document_update sdk (_docRef o) (_updateData o) (world σ)).1,
        {| world := (document_update sdk (_docRef o) (_updateData o) (world σ)).2;
           heap := heap σ;
           log := log σ ++ [EvDocumentUpdate (_docRef o) (_updateData o)] |}) ∧
     update_calls (log (UpdateBuilder.commit sdk b σ).2) = S (update_calls (log σ))).
Proof.
  intros Hb. rewrite (commit_run sdk σ b o Hb). split; intros Hm.
  - rewrite bool_decide_eq_true_2 by done. split; [done|].
    simpl. rewrite update_calls_snoc. simpl. lia.
  - rewrite bool_decide_eq_false_2 by done.
    destruct (document_update _ _ _ _) as [p w]. split; [done|].
    simpl. rewrite update_calls_snoc. simpl. lia.
Qed.

(** C8 on the builders of the unit tests: a new one, and the one returned
    by [_set("name", "New Name")]. *)
Lemma commit_empty_is_noop_witness :
  (UpdateBuilder.commit mock_sdk 1%positive new_update_builder_state =
     (Returned (Resolved {| writeTime := None |}),
      {| world := 0; heap := heap new_update_builder_state;
         log := [EvConsoleWarn "Update commit called with no changes specified."] |}) ∧
   update_calls
     (log (UpdateBuilder.commit mock_sdk 1%positive new_update_builder_state).2) = 0) ∧
  (UpdateBuilder.commit mock_sdk 2%positive named_update_builder_state =
     (Returned (Resolved {| writeTime := Some 1%Z |}),
      {| world := 0; heap := heap named_update_builder_state;
         log := [EvDocumentUpdate items_document
                   (list_to_map [ ("name", VString "New Name") ])] |}) ∧
   update_calls
     (log (UpdateBuilder.commit mock_sdk 2%positive named_update_builder_state).2) = 1).
Proof.
  split.
  - exact (proj1 (commit_empty_is_noop mock_sdk new_update_builder_state 1%positive
                    {| ub_prototype := "AdminBaseUpdateBuilder"; _docRef := items_document;
                       _updateData := ∅ |} eq_refl) eq_refl).
  - apply (proj2 (commit_empty_is_noop mock_sdk named_update_builder_state 2%positive
                    {| ub_prototype := "AdminBaseUpdateBuilder"; _docRef := items_document;
                       _updateData := list_to_map [ ("name", VString "New Name") ] |}
                    eq_refl)).
    intros H. apply (f_equal (λ m : gmap string value, m !! "name")) in H.
    discriminate H.
Defined.

(** * Further properties of the code *)

(** ** applyDefaults as a function on payloads *)

Lemma installed_default_defined fieldDef d :
  installed_default fieldDef = Some d → d ≠ VUndefined.
Proof.
  unfold installed_default.
  destruct (strict_eq_string (read_defaultValue fieldDef) "serverTimestamp").
  - by intros [= <-].
  - destruct (is_undefined (read_defaultValue fieldDef)) eqn:Hd; [done|].
    intros [= <-] Heq. by rewrite Heq in Hd.
Qed.

Lemma installed_default_configured fieldDef :
  read_defaultValue fieldDef ≠ VUndefined → is_Some (installed_default fieldDef).
Proof.
  intros Hd. unfold installed_default.
  destruct (strict_eq_string _ _); [by eexists|].
  destruct (is_undefined (read_defaultValue fieldDef)) eqn:Hu; [|by eexists].
  exfalso. apply Hd. by destruct (read_defaultValue fieldDef).
Qed.

Lemma js_get_defined (o : gmap string value) k v :
  o !! k = Some v → js_get o k = v.
Proof. unfold js_get. by intros ->. Qed.

(** X1.  Injecting the defaults twice is injecting them once: a payload
    that went through [applyDefaults] is not changed by a second pass with
    the same schema. *)
Theorem applyDefaults_idempotent (sch : option CollectionSchema)
    (data : gmap string value) :
  applyDefaults sch (applyDefaults sch data) = applyDefaults sch data.
Proof.
  apply map_eq. intros g.
  rewrite (applyDefaults_lookup sch (applyDefaults sch data)).
  unfold filled at 1.
  destruct (schema_fields sch !! g) as [fieldDef|] eqn:Hg; [|done].
  destruct (is_undefined (js_get (applyDefaults sch data) g)) eqn:Hu; [|done].
  destruct (installed_default fieldDef) as [d|] eqn:Hd; [|done].
  rewrite applyDefaults_lookup in *. unfold filled in *. rewrite Hg, Hd in *.
  destruct (is_undefined (js_get data g)) eqn:Hu0; [done|].
  rewrite <- (js_get_ext data (applyDefaults sch data) g), Hu0 in Hu; [done|].
  rewrite applyDefaults_lookup. unfold filled. by rewrite Hg, Hu0.
Qed.

(** X2.  [applyDefaults] never drops a field of the payload, and adds
    fields of the schema's table only. *)
Theorem applyDefaults_domain (sch : option CollectionSchema)
    (data : gmap string value) :
  dom data ⊆ dom (applyDefaults sch data) ∧
  dom (applyDefaults sch data) ⊆ dom data ∪ dom (schema_fields sch).
Proof.
  split; intros g; rewrite ?elem_of_union, !elem_of_dom, applyDefaults_lookup;
    unfold filled.
  - intros Hg. destruct (schema_fields sch !! g) as [fieldDef|]; [|done].
    destruct (is_undefined _); [|done].
    destruct (installed_default fieldDef); [by eexists|done].
  - destruct (schema_fields sch !! g) as [fieldDef|]; [|by left].
    intros _. by right.
Qed.

(** X3.  With a schema none of whose fields configures a default, the
    payload is written as the caller gave it. *)
Theorem applyDefaults_without_defaults (sch : option CollectionSchema)
    (data : gmap string value) :
  (∀ f fieldDef, schema_fields sch !! f = Some fieldDef →
                 read_defaultValue fieldDef = VUndefined) →
  applyDefaults sch data = data.
Proof.
  intros Hnone. apply map_eq. intros g.
  rewrite applyDefaults_lookup. unfold filled.
  destruct (schema_fields sch !! g) as [fieldDef|] eqn:Hg; [|done].
  destruct (is_undefined _); [|done].
  unfold installed_default. by rewrite (Hnone g fieldDef Hg).
Qed.

(** X3 on the schema [{fields: {value: {}}}] of the unit tests. *)
Lemma applyDefaults_without_defaults_witness :
  applyDefaults (Some sub_items_schema) payload_name_only = payload_name_only.
Proof.
  apply (applyDefaults_without_defaults (Some sub_items_schema) payload_name_only).
  intros f fieldDef Hf. simpl in Hf.
  apply lookup_insert_Some in Hf as [[_ <-]|[_ Hf]]; [reflexivity|].
  rewrite lookup_empty in Hf. discriminate Hf.
Defined.

(** X4.  After [applyDefaults], a field for which the schema configures a
    default never reads as [undefined], whatever the payload was. *)
Theorem applyDefaults_defaulted_field_is_defined (sch : option CollectionSchema)
    (data : gmap string value) (f : string) (fieldDef : FieldSchema) :
  schema_fields sch !! f = Some fieldDef →
  read_defaultValue fieldDef ≠ VUndefined →
  js_get (applyDefaults sch data) f ≠ VUndefined.
Proof.
  intros Hf Hd.
  destruct (installed_default_configured fieldDef Hd) as [d Hinst].
  pose proof (installed_default_defined fieldDef d Hinst) as Hdef.
  pose proof (applyDefaults_lookup sch data f) as Hl.
  unfold filled in Hl. rewrite Hf, Hinst in Hl.
  destruct (is_undefined (js_get data f)) eqn:Hu.
  - by rewrite (js_get_defined _ f d Hl).
  - rewrite (js_get_ext _ data f Hl). intros Heq. by rewrite Heq in Hu.
Qed.

(** X4 on the schema of the specification's example and the payload
    [{name: "x", status: undefined}]. *)
Lemma applyDefaults_defaulted_field_is_defined_witness :
  js_get (applyDefaults (Some status_score_schema) payload_with_explicit_undefined)
    "status" ≠ VUndefined.
Proof.
  apply (applyDefaults_defaulted_field_is_defined (Some status_score_schema)
           payload_with_explicit_undefined "status"
           {| defaultValue := Some (VString "inactive") |}).
  - reflexivity.
  - discriminate.
Defined.

(** ** The collection handle: failures of the store *)

Section CollectionFailures.
Context {World : Type} (sdk : StoreAPI World).

Lemma delete_run this id σ docRef w1 :
  collection_doc sdk (ref this) id (world σ) = (Returned docRef, w1) →
  CollectionRef.delete sdk this id σ =
    let '(p, w2) := document_delete sdk docRef w1 in
    (Returned p,
     {| world := w2; heap := heap σ;
        log := log σ ++ [EvCollectionDoc (ref this) id; EvDocumentDelete docRef] |}).
Proof.
  intros Hdoc.
  unfold CollectionRef.delete, CollectionRef.doc, async, mbind, M_bind, bind,
    store_call, store_call_sync; simpl.
  rewrite Hdoc; simpl.
  destruct (document_delete _ _ _) as [[r|e] w2]; simpl; by rewrite <- app_assoc.
Qed.
End CollectionFailures.

(** X5.  A rejection by the store reaches the caller unchanged: when the
    store's [add], [set], [delete] or [get] is rejected with a reason, the
    promise of the handle's method is rejected with that reason, and the
    log shows the one call that failed and no other I/O call (no retry). *)
Theorem store_rejection_propagates {World} (sdk : StoreAPI World)
    (this : AdminBaseCollectionRef) (σ : State World) (e : JsError) :
  (∀ data,
     (collection_add sdk (ref this) (applyDefaults (schema this) data) (world σ)).1
       = Rejected e →
     (CollectionRef.add sdk this data σ).1 = Returned (Rejected e) ∧
     log (CollectionRef.add sdk this data σ).2 =
       log σ ++ [EvCollectionAdd (ref this) (applyDefaults (schema this) data)]) ∧
  (∀ id docRef w1,
     collection_doc sdk (ref this) id (world σ) = (Returned docRef, w1) →
     (∀ data options written,
        written = (if isMerge options then data
                   else applyDefaults (schema this) data) →
        (document_set sdk docRef written (default ∅ options) w1).1 = Rejected e →
        (CollectionRef.set sdk this id data options σ).1 = Returned (Rejected e) ∧
        log (CollectionRef.set sdk this id data options σ).2 =
          log σ ++ [EvCollectionDoc (ref this) id;
                    EvDocumentSet docRef written (default ∅ options)]) ∧
     ((document_delete sdk docRef w1).1 = Rejected e →
        (CollectionRef.delete sdk this id σ).1 = Returned (Rejected e) ∧
        log (CollectionRef.delete sdk this id σ).2 =
          log σ ++ [EvCollectionDoc (ref this) id; EvDocumentDelete docRef]) ∧
     ((document_get sdk docRef w1).1 = Rejected e →
        (CollectionRef.get sdk this id σ).1 = Returned (Rejected e) ∧
        log (CollectionRef.get sdk this id σ).2 =
          log σ ++ [EvCollectionDoc (ref this) id; EvDocumentGet docRef])).
Proof.
  split.
  - intros data. rewrite add_run. simpl.
    destruct (collection_add _ _ _ _) as [p w]. simpl. by intros ->.
  - intros id docRef w1 Hdoc. split_and!.
    + intros data options written -> Hrej.
      rewrite (set_run sdk this id data options σ docRef w1 Hdoc). simpl.
      destruct (document_set _ _ _ _ _) as [p w]. simpl in *. by subst p.
    + rewrite (delete_run sdk this id σ docRef w1 Hdoc).
      destruct (document_delete _ _ _) as [p w]. simpl. by intros ->.
    + rewrite (get_run sdk this id σ docRef w1 Hdoc).
      destruct (document_get _ _ _) as [p w]. simpl. by intros ->.
Qed.

(** X5 on the unreachable store. *)
Lemma store_rejection_propagates_witness :
  (CollectionRef.add failing_sdk (items_handle (Some status_score_schema))
     payload_name_only (initial_state 0)).1 = Returned (Rejected unavailable) ∧
  (CollectionRef.set failing_sdk (items_handle (Some status_score_schema))
     "test-doc-123" payload_name_only None (initial_state 0)).1
    = Returned (Rejected unavailable) ∧
  (CollectionRef.delete failing_sdk (items_handle (Some status_score_schema))
     "test-doc-123" (initial_state 0)).1 = Returned (Rejected unavailable) ∧
  (CollectionRef.get failing_sdk (items_handle (Some status_score_schema))
     "test-doc-123" (initial_state 0)).1 = Returned (Rejected unavailable).
Proof.
  destruct (store_rejection_propagates failing_sdk
              (items_handle (Some status_score_schema)) (initial_state 0) unavailable)
    as [Hadd Hdoc].
  destruct (Hdoc "test-doc-123" items_document 0 eq_refl) as (Hset & Hdel & Hget).
  split_and!.
  - exact (proj1 (Hadd payload_name_only eq_refl)).
  - exact (proj1 (Hset payload_name_only None _ eq_refl eq_refl)).
  - exact (proj1 (Hdel eq_refl)).
  - exact (proj1 (Hget eq_refl)).
Defined.

(** X6.  When resolving the document reference throws, [set], [delete]
    and [get] do not throw: each returns a promise rejected with what was
    thrown, and no write, delete or read reaches the store. *)
Theorem doc_failure_rejects_without_io {World} (sdk : StoreAPI World)
    (this : AdminBaseCollectionRef) (id : string) (σ : State World)
    (e : JsError) (w1 : World) :
  collection_doc sdk (ref this) id (world σ) = (Thrown e, w1) →
  let σ' := {| world := w1; heap := heap σ;
               log := log σ ++ [EvCollectionDoc (ref this) id] |} in
  (∀ data options,
     CollectionRef.set sdk this id data options σ = (Returned (Rejected e), σ')) ∧
  CollectionRef.delete sdk this id σ = (Returned (Rejected e), σ') ∧
  CollectionRef.get sdk this id σ = (Returned (Rejected e), σ').
Proof.
  intros Hdoc σ'. split_and!; [intros data options| |];
    unfold CollectionRef.set, CollectionRef.delete, CollectionRef.get,
      CollectionRef.doc, async, mbind, M_bind, bind, store_call_sync; simpl;
    by rewrite Hdoc.
Qed.

(** X6 on the store whose [doc] rejects the id. *)
Lemma doc_failure_rejects_without_io_witness :
  CollectionRef.get throwing_doc_sdk (items_handle None) "" (initial_state 0) =
    (Returned (Rejected invalid_id),
     {| world := 0; heap := ∅;
        log := [EvCollectionDoc (ref (items_handle None)) ""] |}).
Proof.
  exact (proj2 (proj2 (doc_failure_rejects_without_io throwing_doc_sdk
                         (items_handle None) "" (initial_state 0) invalid_id 0
                         eq_refl))).
Defined.

(** ** Sub-collections of the base class *)

(** X7.  When the class registered for the sub-collection constructs as
    [AdminBaseCollectionRef] itself does (a subclass whose constructor only
    calls [super]), the handle returned refers to the collection the store
    gives for [parentDocRef.collection(name)]: the store is asked for
    [doc(parentId)], then for that collection, and never for a top-level
    collection.  The handle carries the firestore instance of the parent
    handle and the schema of the table entry. *)
Theorem subCollection_resolves_under_parent {World} (sdk : StoreAPI World)
    (construct : Constructors World AdminBaseCollectionRef)
    (this : AdminBaseCollectionRef) (parentId name : string)
    (cls : value) (subSchema : option CollectionSchema) (σ : State World)
    (table : gmap string SubCollectionDef) (d : SubCollectionDef)
    (parentDocRef : DocumentReference) (c : CollectionReference) (w1 w2 : World) :
  schema this ≫= subCollections = Some table →
  table !! name = Some d →
  truthy (collectionClass d) = true →
  construct (collectionClass d) = CollectionRef.AdminBaseCollectionRef_new sdk →
  collection_doc sdk (ref this) parentId (world σ) = (Returned parentDocRef, w1) →
  document_collection sdk parentDocRef name w1 = (Returned c, w2) →
  CollectionRef.subCollection sdk construct this parentId name cls subSchema σ =
    (Returned {| ref := c; firestore := firestore this; collectionId := name;
                 schema := sub_schema d |},
     {| world := w2; heap := heap σ;
        log := log σ ++ [EvCollectionDoc (ref this) parentId;
                         EvNew (collectionClass d) (firestore this) name
                           (sub_schema d) (Some parentDocRef);
                         EvDocumentCollection parentDocRef name] |}).
Proof.
  intros Htab Hd Hcls Hnew Hdoc Hcoll.
  unfold CollectionRef.subCollection, read_subCollection.
  rewrite Htab, Hd, Hcls. simpl.
  unfold CollectionRef.doc, CollectionRef.js_new, mbind, M_bind, bind,
    store_call_sync, emit; simpl.
  rewrite Hdoc; simpl. rewrite Hnew.
  unfold CollectionRef.AdminBaseCollectionRef_new, mbind, M_bind, bind,
    store_call_sync, mret, M_ret, ret; simpl.
  rewrite Hcoll; simpl. by rewrite <- !app_assoc.
Qed.

(** X7 on the schema and the class of the unit tests. *)
Lemma subCollection_resolves_under_parent_witness :
  (CollectionRef.subCollection mock_sdk mock_construct
     (items_handle (Some parent_schema)) "parent-123" "sub-items"
     (VFunction "MockSubCollection") (Some sub_items_schema) (initial_state 0)).1
  = Returned {| ref := {| cref_id := "sub-items";
                          cref_path := "test-items/parent-123/sub-items" |};
                firestore := mock_firestore; collectionId := "sub-items";
                schema := Some sub_items_schema |}.
Proof.
  rewrite (subCollection_resolves_under_parent mock_sdk mock_construct
             (items_handle (Some parent_schema)) "parent-123" "sub-items"
             (VFunction "MockSubCollection") (Some sub_items_schema) (initial_state 0)
             (default ∅ (subCollections parent_schema))
             (mkSubCollectionDef (Some sub_items_schema) (VFunction "MockSubCollection"))
             {| dref_id := "parent-123"; dref_path := "test-items/parent-123" |}
             {| cref_id := "sub-items"; cref_path := "test-items/parent-123/sub-items" |}
             0 0 eq_refl eq_refl eq_refl eq_refl eq_refl eq_refl).
  reflexivity.
Defined.

(** X8.  When the schema is in order but resolving the parent document
    reference throws, [subCollection] throws the same error and the
    registered constructor is not invoked. *)
Theorem subCollection_parent_failure {World Instance : Type}
    (sdk : StoreAPI World) (construct : Constructors World Instance)
    (this : AdminBaseCollectionRef) (parentId name : string)
    (cls : value) (subSchema : option CollectionSchema) (σ : State World)
    (table : gmap string SubCollectionDef) (d : SubCollectionDef)
    (e : JsError) (w1 : World) :
  schema this ≫= subCollections = Some table →
  table !! name = Some d →
  truthy (collectionClass d) = true →
  collection_doc sdk (ref this) parentId (world σ) = (Thrown e, w1) →
  CollectionRef.subCollection sdk construct this parentId name cls subSchema σ =
    (Thrown e,
     {| world := w1; heap := heap σ;
        log := log σ ++ [EvCollectionDoc (ref this) parentId] |}).
Proof.
  intros Htab Hd Hcls Hdoc.
  unfold CollectionRef.subCollection, read_subCollection.
  rewrite Htab, Hd, Hcls. simpl.
  unfold CollectionRef.doc, mbind, M_bind, bind, store_call_sync; simpl.
  by rewrite Hdoc.
Qed.

(** X8 on the store whose [doc] rejects the id. *)
Lemma subCollection_parent_failure_witness :
  CollectionRef.subCollection throwing_doc_sdk mock_construct
    (items_handle (Some parent_schema)) "" "sub-items"
    (VFunction "MockSubCollection") None (initial_state 0)
  = (Thrown invalid_id,
     {| world := 0; heap := ∅;
        log := [EvCollectionDoc (ref (items_handle (Some parent_schema))) ""] |}).
Proof.
  exact (subCollection_parent_failure throwing_doc_sdk mock_construct
           (items_handle (Some parent_schema)) "" "sub-items"
           (VFunction "MockSubCollection") None (initial_state 0)
           (default ∅ (subCollections parent_schema))
           (mkSubCollectionDef (Some sub_items_schema) (VFunction "MockSubCollection"))
           invalid_id 0 eq_refl eq_refl eq_refl eq_refl).
Defined.

(** ** Builders: branching from a shared prefix *)

(** X9.  Two calls made on the same builder (for an update builder, two
    calls the SDK accepts) give two builders that are different from each
    other and from the receiver; each holds the receiver's state extended
    by its own call only, and making the second does not change the
    first. *)
Theorem branches_are_independent {World} (σ : State World) (b : loc) :
  (∀ o (c1 c2 : QueryCall),
     heap σ !! b = Some (HQueryBuilder o) →
     ∃ b1 σ1 b2 σ2,
       invoke_query_call b c1 σ = (Returned b1, σ1) ∧
       invoke_query_call b c2 σ1 = (Returned b2, σ2) ∧
       b1 ≠ b2 ∧ b1 ≠ b ∧ b2 ≠ b ∧
       heap σ2 !! b = Some (HQueryBuilder o) ∧
       heap σ2 !! b1 = Some (HQueryBuilder (appended o (recorded_descriptor c1))) ∧
       heap σ2 !! b2 = Some (HQueryBuilder (appended o (recorded_descriptor c2)))) ∧
  (∀ o (c1 c2 : UpdateCall),
     heap σ !! b = Some (HUpdateBuilder o) →
     call_accepted c1 = true → call_accepted c2 = true →
     ∃ b1 σ1 b2 σ2,
       invoke_update_call b c1 σ = (Returned b1, σ1) ∧
       invoke_update_call b c2 σ1 = (Returned b2, σ2) ∧
       b1 ≠ b2 ∧ b1 ≠ b ∧ b2 ≠ b ∧
       heap σ2 !! b = Some (HUpdateBuilder o) ∧
       heap σ2 !! b1 =
         Some (HUpdateBuilder (recorded o (call_path c1) (call_value c1))) ∧
       heap σ2 !! b2 =
         Some (HUpdateBuilder (recorded o (call_path c2) (call_value c2)))).
Proof.
  split; [intros o c1 c2 Hb|intros o c1 c2 Hb Hc1 Hc2].
  - set (b1 := fresh (dom (heap σ))).
    set (σ1 := {| world := world σ;
                  heap := <[b1 := HQueryBuilder (appended o (recorded_descriptor c1))]>
                            (heap σ);
                  log := log σ |}).
    assert (b1 ≠ b) as Hb1 by (by eapply fresh_location_differs).
    assert (heap σ1 !! b = Some (HQueryBuilder o)) as Hb'
      by (simpl; by rewrite lookup_insert_ne).
    assert (heap σ1 !! b1 = Some (HQueryBuilder (appended o (recorded_descriptor c1))))
      as Hb1' by (simpl; apply lookup_insert_eq).
    pose proof (fresh_location_differs σ1 b _ Hb') as Hb2.
    pose proof (fresh_location_differs σ1 b1 _ Hb1') as Hb12.
    eexists b1, σ1, (fresh (dom (heap σ1))), _.
    split; [by apply invoke_query_call_run|].
    split; [by apply invoke_query_call_run|].
    split_and!; [done|done|done| | |]; cbn [heap].
    + by rewrite lookup_insert_ne.
    + by rewrite lookup_insert_ne.
    + apply lookup_insert_eq.
  - set (b1 := fresh (dom (heap σ))).
    set (σ1 := {| world := world σ;
                  heap := <[b1 := HUpdateBuilder
                                    (recorded o (call_path c1) (call_value c1))]>
                            (heap σ);
                  log := log σ |}).
    assert (b1 ≠ b) as Hb1 by (by eapply fresh_location_differs).
    assert (heap σ1 !! b = Some (HUpdateBuilder o)) as Hb'
      by (simpl; by rewrite lookup_insert_ne).
    assert (heap σ1 !! b1 =
              Some (HUpdateBuilder (recorded o (call_path c1) (call_value c1))))
      as Hb1' by (simpl; apply lookup_insert_eq).
    pose proof (fresh_location_differs σ1 b _ Hb') as Hb2.
    pose proof (fresh_location_differs σ1 b1 _ Hb1') as Hb12.
    eexists b1, σ1, (fresh (dom (heap σ1))), _.
    split; [by apply invoke_update_call_run|].
    split; [by apply invoke_update_call_run|].
    split_and!; [done|done|done| | |]; cbn [heap].
    + by rewrite lookup_insert_ne.
    + by rewrite lookup_insert_ne.
    + apply lookup_insert_eq.
Qed.

(** X9 on the builders of the unit tests: [limit(5)] and [limitToLast(3)]
    on a new query builder, [_set] and [_increment] on a new update
    builder. *)
Lemma branches_are_independent_witness :
  (∃ b1 σ1 b2 σ2,
     invoke_query_call 1%positive (call_limit 5) new_query_builder_state
       = (Returned b1, σ1) ∧
     invoke_query_call 1%positive (call_limitToLast 3) σ1 = (Returned b2, σ2) ∧
     b1 ≠ b2) ∧
  (∃ b1 σ1 b2 σ2,
     invoke_update_call 1%positive (call_set "name" (VString "New Name"))
       new_update_builder_state = (Returned b1, σ1) ∧
     invoke_update_call 1%positive (call_increment "count" 1) σ1 = (Returned b2, σ2) ∧
     b1 ≠ b2).
Proof.
  split.
  - destruct (proj1 (branches_are_independent new_query_builder_state 1%positive)
                {| qb_prototype := "AdminBaseQueryBuilder"; qb_firestore := mock_firestore;
                   collectionRef := items_collection; constraintDefinitions := [] |}
                (call_limit 5) (call_limitToLast 3) eq_refl)
      as (b1 & σ1 & b2 & σ2 & H1 & H2 & Hne & _).
    exists b1, σ1, b2, σ2. split; [exact H1|]. split; [exact H2|exact Hne].
  - destruct (proj2 (branches_are_independent new_update_builder_state 1%positive)
                {| ub_prototype := "AdminBaseUpdateBuilder"; _docRef := items_document;
                   _updateData := ∅ |}
                (call_set "name" (VString "New Name")) (call_increment "count" 1)
                eq_refl eq_refl eq_refl)
      as (b1 & σ1 & b2 & σ2 & H1 & H2 & Hne & _).
    exists b1, σ1, b2, σ2. split; [exact H1|]. split; [exact H2|exact Hne].
Defined.

(** ** The query builder: what realization does to the store *)

Section RealizationEffects.
Context {World : Type} (sdk : StoreAPI World).

Lemma forEach_events defs : ∀ q (σ : State World),
  ∃ evs,
    heap (QueryBuilder.forEach sdk defs q σ).2 = heap σ ∧
    log (QueryBuilder.forEach sdk defs q σ).2 = log σ ++ evs ∧
    Forall (λ ev, is_query_call ev = true) evs ∧
    (length evs ≤ length defs)%nat ∧
    (∀ q', (QueryBuilder.forEach sdk defs q σ).1 = Returned q' →
           length evs = length defs).
Proof.
  induction defs as [|def defs IH]; intros q σ; simpl.
  - exists []. by rewrite app_nil_r.
  - destruct (buildQuery_case_is_native sdk def) as [m Hm].
    unfold mbind, M_bind, bind. rewrite Hm.
    unfold QueryBuilder.native, store_call_sync.
    destruct (query_method sdk q m (world σ)) as [[q1|e] w]; simpl.
    + destruct (IH q1 {| world := w; heap := heap σ;
                         log := log σ ++ [EvQuery q m] |})
        as (evs & Hh & Hl & Hall & Hle & Heq).
      exists (EvQuery q m :: evs). split_and!.
      * exact Hh.
      * rewrite Hl. simpl. by rewrite <- app_assoc.
      * by constructor.
      * simpl. lia.
      * intros q' Hq'. simpl. f_equal. by apply (Heq q').
    + exists [EvQuery q m]. split_and!; try done.
      * by repeat constructor.
      * simpl. lia.
Qed.

Lemma replay_app ms1 ms2 : ∀ q (w : World) evs q1 w1,
  replay sdk ms1 q w = (evs, Returned q1, w1) →
  replay sdk (ms1 ++ ms2) q w =
    let '(evs2, r, w2) := replay sdk ms2 q1 w1 in (evs ++ evs2, r, w2).
Proof.
  induction ms1 as [|m ms1 IH]; intros q w evs q1 w1; simpl.
  - intros [= <- <- <-]. by destruct (replay sdk ms2 q w) as [[??]?].
  - destruct (query_method sdk q m w) as [[q'|e] w']; [|done].
    destruct (replay sdk ms1 q' w') as [[evs1 r1] w1'] eqn:Hrest.
    intros [= <- -> ->].
    rewrite (IH q' w' evs1 q1 w1 Hrest).
    by destruct (replay sdk ms2 q1 w1) as [[??]?].
Qed.

Lemma getSnapshot_run b (σ : State World) :
  QueryBuilder.getSnapshot sdk b σ =
    match QueryBuilder.buildQuery sdk b σ with
    | (Returned q, σ1) =>
        let '(p, w) := query_get sdk q (world σ1) in
        (Returned p,
         {| world := w; heap := heap σ1; log := log σ1 ++ [EvQueryGet q] |})
    | (Thrown e, σ1) => (Returned (Rejected e), σ1)
    end.
Proof.
  unfold QueryBuilder.getSnapshot, async, mbind, M_bind, bind, store_call.
  destruct (QueryBuilder.buildQuery sdk b σ) as [[q|e] σ1]; [|done].
  destruct (query_get sdk q (world σ1)) as [[s|e] w]; done.
Qed.

Lemma get_run_query b (σ : State World) :
  QueryBuilder.get sdk b σ =
    match QueryBuilder.getSnapshot sdk b σ with
    | (Returned p, σ1) => (Returned (promise_map docs p), σ1)
    | (Thrown e, σ1) => (Returned (Rejected e), σ1)
    end.
Proof.
  unfold QueryBuilder.get, async, mbind, M_bind, bind.
  destruct (QueryBuilder.getSnapshot sdk b σ) as [[[s|e]|e] σ1]; done.
Qed.

Lemma built_chain_run prototype fs c calls (σ : State World) :
  ∃ b σ1 o,
    (b0 ← QueryBuilder.new prototype fs c; query_chain b0 calls) σ = (Returned b, σ1) ∧
    heap σ1 !! b = Some (HQueryBuilder o) ∧
    collectionRef o = c ∧
    constraintDefinitions o = map recorded_descriptor calls ∧
    world σ1 = world σ ∧ log σ1 = log σ.
Proof.
  unfold mbind, M_bind, bind, QueryBuilder.new, alloc.
  set (o0 := {| qb_prototype := prototype; qb_firestore := fs; collectionRef := c;
                constraintDefinitions := [] |}).
  destruct (query_chain_run calls
              {| world := world σ;
                 heap := <[fresh (dom (heap σ)) := HQueryBuilder o0]> (heap σ);
                 log := log σ |} (fresh (dom (heap σ))) o0)
    as (b & σ1 & o & Hrun & Hb & Hc & Hdefs & Hw & Hl).
  { simpl. apply lookup_insert_eq. }
  by exists b, σ1, o.
Qed.
End RealizationEffects.

(** X10.  [buildQuery] does no I/O and changes no builder: the heap is
    left as it was, every call it logs is a chaining call on a query, and
    there is at most one per recorded descriptor, exactly one when it
    returns. *)
Theorem buildQuery_only_chains {World} (sdk : StoreAPI World)
    (σ : State World) (b : loc) (o : QueryBuilderObject) :
  heap σ !! b = Some (HQueryBuilder o) →
  ∃ evs,
    heap (QueryBuilder.buildQuery sdk b σ).2 = heap σ ∧
    log (QueryBuilder.buildQuery sdk b σ).2 = log σ ++ evs ∧
    Forall (λ ev, is_query_call ev = true) evs ∧
    (length evs ≤ length (constraintDefinitions o))%nat ∧
    (∀ q, (QueryBuilder.buildQuery sdk b σ).1 = Returned q →
          length evs = length (constraintDefinitions o)).
Proof.
  intros Hb. rewrite (buildQuery_run sdk σ b o Hb). apply forEach_events.
Qed.

(** X10 on a new builder: nothing is recorded, so nothing is called. *)
Lemma buildQuery_only_chains_witness :
  log (QueryBuilder.buildQuery mock_sdk 1%positive new_query_builder_state).2 = [].
Proof.
  destruct (buildQuery_only_chains mock_sdk new_query_builder_state 1%positive
              {| qb_prototype := "AdminBaseQueryBuilder"; qb_firestore := mock_firestore;
                 collectionRef := items_collection; constraintDefinitions := [] |}
              eq_refl) as (evs & _ & Hlog & _ & Hle & _).
  rewrite Hlog. destruct evs as [|ev evs]; [reflexivity|].
  simpl in Hle. exfalso. lia.
Defined.

(** X11.  When a native call throws, [buildQuery] throws the same error
    at once: the calls before it were made, the failing call is the last
    one logged, and the constraints after it are not sent to the store. *)
Theorem buildQuery_stops_at_first_throw {World} (sdk : StoreAPI World)
    (prototype : string) (fs : Firestore) (c : CollectionReference)
    (before after : list QueryCall) (failing : QueryCall) (σ : State World)
    (evs : list event) (q : Query) (w w' : World) (e : JsError) :
  replay sdk (map expected_native before) (QueryOfCollection c) (world σ)
    = (evs, Returned q, w) →
  query_method sdk q (expected_native failing) w = (Thrown e, w') →
  ∃ b σ1,
    (b0 ← QueryBuilder.new prototype fs c;
     query_chain b0 (before ++ failing :: after)) σ = (Returned b, σ1) ∧
    QueryBuilder.buildQuery sdk b σ1 =
      (Thrown e,
       {| world := w'; heap := heap σ1;
          log := log σ ++ evs ++ [EvQuery q (expected_native failing)] |}).
Proof.
  intros Hbefore Hthrow.
  destruct (built_chain_run prototype fs c (before ++ failing :: after) σ)
    as (b & σ1 & o & Hrun & Hb & Hc & Hdefs & Hw & Hl).
  exists b, σ1. split; [done|].
  rewrite (buildQuery_run sdk σ1 b o Hb), Hdefs, Hc, forEach_replay, Hw, Hl.
  rewrite map_app.
  rewrite (replay_app sdk _ _ _ _ _ _ _ Hbefore). simpl.
  by rewrite Hthrow.
Qed.

(** X11 on the validating store: [orderBy("B").limit(-1).startAfter("C")]. *)
Lemma buildQuery_stops_at_first_throw_witness :
  ∃ b σ1,
    (b0 ← QueryBuilder.new "AdminBaseQueryBuilder" mock_firestore items_collection;
     query_chain b0 ([call_orderBy (FieldName "B") None] ++
                     call_limit (-1) :: [call_startAfter (VString "C") []]))
      (initial_state 0) = (Returned b, σ1) ∧
    QueryBuilder.buildQuery validating_sdk b σ1 =
      (Thrown invalid_limit,
       {| world := 1; heap := heap σ1;
          log := [EvQuery (QueryOfCollection items_collection)
                    (native_orderBy (FieldName "B") asc);
                  EvQuery (QueryHandle 0) (native_limit (-1))] |}).
Proof.
  exact (buildQuery_stops_at_first_throw validating_sdk "AdminBaseQueryBuilder"
           mock_firestore items_collection [call_orderBy (FieldName "B") None]
           [call_startAfter (VString "C") []] (call_limit (-1)) (initial_state 0)
           [EvQuery (QueryOfCollection items_collection)
              (native_orderBy (FieldName "B") asc)]
           (QueryHandle 0) 1 1 invalid_limit eq_refl eq_refl).
Defined.

(** X12.  When the replay of the chain returns a query, [getSnapshot]
    fetches that query once, after the chaining calls, and returns the
    store's promise; [get] makes the same calls and no other, and maps a
    resolved snapshot to the data of its documents, in their order. *)
Theorem query_get_fetches_once {World} (sdk : StoreAPI World)
    (prototype : string) (fs : Firestore) (c : CollectionReference)
    (calls : list QueryCall) (σ : State World)
    (evs : list event) (q : Query) (w : World) :
  replay sdk (map expected_native calls) (QueryOfCollection c) (world σ)
    = (evs, Returned q, w) →
  ∃ b σ1,
    (b0 ← QueryBuilder.new prototype fs c; query_chain b0 calls) σ = (Returned b, σ1) ∧
    let σ2 := {| world := (query_get sdk q w).2; heap := heap σ1;
                 log := log σ ++ evs ++ [EvQueryGet q] |} in
    QueryBuilder.getSnapshot sdk b σ1 = (Returned (query_get sdk q w).1, σ2) ∧
    QueryBuilder.get sdk b σ1 =
      (Returned (promise_map docs (query_get sdk q w).1), σ2).
Proof.
  intros Hreplay.
  destruct (built_chain_run prototype fs c calls σ)
    as (b & σ1 & o & Hrun & Hb & Hc & Hdefs & Hw & Hl).
  exists b, σ1. split; [done|].
  assert (QueryBuilder.getSnapshot sdk b σ1 =
            (Returned (query_get sdk q w).1,
             {| world := (query_get sdk q w).2; heap := heap σ1;
                log := log σ ++ evs ++ [EvQueryGet q] |})) as Hsnap.
  { rewrite getSnapshot_run, (buildQuery_run sdk σ1 b o Hb), Hdefs, Hc.
    rewrite forEach_replay, Hw, Hl, Hreplay. simpl.
    destruct (query_get sdk q w) as [p w2]. simpl. by rewrite <- app_assoc. }
  split; [exact Hsnap|].
  by rewrite get_run_query, Hsnap.
Qed.

(** X12 on the chain of the specification and the mock store. *)
Lemma query_get_fetches_once_witness :
  ∃ b σ1,
    (b0 ← QueryBuilder.new "AdminBaseQueryBuilder" mock_firestore items_collection;
     query_chain b0 filter_orderBy_limit_startAfter) (initial_state 0)
      = (Returned b, σ1) ∧
    (QueryBuilder.get mock_sdk b σ1).1 = Returned (Resolved []) ∧
    log (QueryBuilder.get mock_sdk b σ1).2 =
      [ EvQuery (QueryOfCollection items_collection)
          (native_where (FieldName "A") OpEq (VNumber 1));
        EvQuery (QueryHandle 0) (native_orderBy (FieldName "B") asc);
        EvQuery (QueryHandle 1) (native_limit 5);
        EvQuery (QueryHandle 2) (native_startAfter [VString "C"]);
        EvQueryGet (QueryHandle 3) ].
Proof.
  destruct (query_get_fetches_once mock_sdk "AdminBaseQueryBuilder" mock_firestore
              items_collection filter_orderBy_limit_startAfter (initial_state 0)
              _ (QueryHandle 3) 4 eq_refl)
    as (b & σ1 & Hrun & _ & Hget).
  exists b, σ1. split; [exact Hrun|]. rewrite Hget. split; reflexivity.
Defined.

(** X13.  When the replay of the chain throws, [getSnapshot] and [get] do
    not throw: each returns a promise rejected with the error, and no
    fetch is made. *)
Theorem query_get_rejects_without_fetch {World} (sdk : StoreAPI World)
    (prototype : string) (fs : Firestore) (c : CollectionReference)
    (calls : list QueryCall) (σ : State World)
    (evs : list event) (e : JsError) (w : World) :
  replay sdk (map expected_native calls) (QueryOfCollection c) (world σ)
    = (evs, Thrown e, w) →
  ∃ b σ1,
    (b0 ← QueryBuilder.new prototype fs c; query_chain b0 calls) σ = (Returned b, σ1) ∧
    let σ2 := {| world := w; heap := heap σ1; log := log σ ++ evs |} in
    QueryBuilder.getSnapshot sdk b σ1 = (Returned (Rejected e), σ2) ∧
    QueryBuilder.get sdk b σ1 = (Returned (Rejected e), σ2).
Proof.
  intros Hreplay.
  destruct (built_chain_run prototype fs c calls σ)
    as (b & σ1 & o & Hrun & Hb & Hc & Hdefs & Hw & Hl).
  exists b, σ1. split; [done|].
  assert (QueryBuilder.getSnapshot sdk b σ1 =
            (Returned (Rejected e),
             {| world := w; heap := heap σ1; log := log σ ++ evs |})) as Hsnap.
  { rewrite getSnapshot_run, (buildQuery_run sdk σ1 b o Hb), Hdefs, Hc.
    by rewrite forEach_replay, Hw, Hl, Hreplay. }
  split; [exact Hsnap|].
  by rewrite get_run_query, Hsnap.
Qed.

(** X13 on the validating store: [limit(-1)]. *)
Lemma query_get_rejects_without_fetch_witness :
  ∃ b σ1,
    (b0 ← QueryBuilder.new "AdminBaseQueryBuilder" mock_firestore items_collection;
     query_chain b0 [call_limit (-1)]) (initial_state 0) = (Returned b, σ1) ∧
    QueryBuilder.get validating_sdk b σ1 =
      (Returned (Rejected invalid_limit),
       {| world := 0; heap := heap σ1;
          log := [EvQuery (QueryOfCollection items_collection) (native_limit (-1))] |}).
Proof.
  destruct (query_get_rejects_without_fetch validating_sdk "AdminBaseQueryBuilder"
              mock_firestore items_collection [call_limit (-1)] (initial_state 0)
              _ invalid_limit 0 eq_refl)
    as (b & σ1 & Hrun & _ & Hget).
  exists b, σ1. split; [exact Hrun|exact Hget].
Defined.

(** ** The update builder: the accumulated map as a function of the calls *)

Section UpdateMap.
Context {World : Type}.

Lemma built_update_chain_run prototype docRef calls (σ : State World) :
  Forall (λ c, call_accepted c = true) calls →
  ∃ b σ1 o,
    (b0 ← UpdateBuilder.new prototype docRef; update_chain b0 calls) σ
      = (Returned b, σ1) ∧
    heap σ1 !! b = Some (HUpdateBuilder o) ∧
    _docRef o = docRef ∧
    (∀ p, _updateData o !! p = last_recorded p calls) ∧
    world σ1 = world σ ∧ log σ1 = log σ.
Proof.
  intros Hacc.
  unfold mbind, M_bind, bind, UpdateBuilder.new, alloc.
  set (o0 := {| ub_prototype := prototype; _docRef := docRef; _updateData := ∅ |}).
  destruct (update_chain_run calls
              {| world := world σ;
                 heap := <[fresh (dom (heap σ)) := HUpdateBuilder o0]> (heap σ);
                 log := log σ |} (fresh (dom (heap σ))) o0 Hacc)
    as (b & σ1 & o & Hrun & Hb & Hd & Hm & Hw & Hl).
  { simpl. apply lookup_insert_eq. }
  exists b, σ1, o. split_and!; try done.
  intros p. rewrite Hm, foldl_insert_lookup. simpl.
  rewrite lookup_empty. by destruct (last_recorded p calls).
Qed.

Lemma last_recorded_is_Some p calls :
  is_Some (last_recorded p calls) ↔ p ∈ call_path <$> calls.
Proof.
  induction calls as [|c calls IH]; simpl.
  - split; [by intros [? [=]]|by intros ?%elem_of_nil].
  - rewrite last_recorded_cons, elem_of_cons, <- IH.
    destruct (last_recorded p calls) as [v|].
    + split; [intros _; right|]; by eexists.
    + destruct (decide (call_path c = p)) as [<-|Hne].
      * split; [by left|by eexists].
      * split; [by intros [? [=]]|]. intros [->|[? [=]]]. done.
Qed.

Lemma last_recorded_NoDup p calls v :
  NoDup (call_path <$> calls) →
  last_recorded p calls = Some v ↔
    ∃ c, c ∈ calls ∧ call_path c = p ∧ call_value c = v.
Proof.
  induction calls as [|c calls IH]; simpl; intros Hnd.
  - split; [done|]. by intros (c & ?%elem_of_nil & _).
  - apply NoDup_cons in Hnd as [Hc Hnd]. rewrite last_recorded_cons.
    destruct (last_recorded p calls) as [v'|] eqn:Hlast.
    + split.
      * intros [= ->]. destruct (proj1 (IH Hnd) eq_refl) as (c' & Hin & Hp & Hv).
        exists c'. split; [by right|done].
      * intros (c' & Hin & Hp & Hv). apply elem_of_cons in Hin as [->|Hin].
        -- exfalso. apply Hc. rewrite Hp. apply last_recorded_is_Some.
           rewrite Hlast. by eexists.
        -- apply (IH Hnd). by exists c'.
    + destruct (decide (call_path c = p)) as [Hp|Hp].
      * split.
        -- intros [= <-]. exists c. split; [by left|done].
        -- intros (c' & Hin & Hp' & Hv). apply elem_of_cons in Hin as [->|Hin].
           ++ by rewrite Hv.
           ++ pose proof (proj2 (IH Hnd)
                             (ex_intro _ c' (conj Hin (conj Hp' Hv)))) as Hsome.
              discriminate Hsome.
      * split; [done|].
        intros (c' & Hin & Hp' & Hv). apply elem_of_cons in Hin as [->|Hin]; [done|].
        pose proof (proj2 (IH Hnd)
                      (ex_intro _ c' (conj Hin (conj Hp' Hv)))) as Hsome.
        discriminate Hsome.
Qed.

Lemma last_recorded_Permutation p calls calls' :
  calls ≡ₚ calls' →
  NoDup (call_path <$> calls) →
  last_recorded p calls = last_recorded p calls'.
Proof.
  intros Hperm Hnd. apply option_eq. intros v.
  assert (NoDup (call_path <$> calls')) as Hnd' by (by rewrite <- Hperm).
  rewrite (last_recorded_NoDup p calls v Hnd), (last_recorded_NoDup p calls' v Hnd').
  split; intros (c & Hin & H); exists c; (split; [|done]).
  - by rewrite <- Hperm.
  - by rewrite Hperm.
Qed.

Lemma update_chain_fields calls : ∀ (σ : State World) b o,
  Forall (λ c, call_accepted c = true) calls →
  heap σ !! b = Some (HUpdateBuilder o) →
  ∃ b' σ' o',
    update_chain b calls σ = (Returned b', σ') ∧
    heap σ' !! b' = Some (HUpdateBuilder o') ∧
    ub_prototype o' = ub_prototype o ∧ _docRef o' = _docRef o.
Proof.
  induction calls as [|c calls IH]; intros σ b o Hacc Hb; simpl.
  - by exists b, σ, o.
  - apply Forall_cons in Hacc as [Hc Hacc].
    unfold mbind, M_bind, bind.
    rewrite (invoke_update_call_run σ b o c Hc Hb).
    edestruct (IH {| world := world σ;
                     heap := <[fresh (dom (heap σ)) :=
                                 HUpdateBuilder (recorded o (call_path c) (call_value c))]>
                               (heap σ);
                     log := log σ |}
                  (fresh (dom (heap σ))) (recorded o (call_path c) (call_value c)) Hacc)
      as (b' & σ' & o' & Hrun & Hb' & Hp & Hd).
    { simpl. apply lookup_insert_eq. }
    by exists b', σ', o'.
Qed.

Lemma query_chain_fields calls : ∀ (σ : State World) b o,
  heap σ !! b = Some (HQueryBuilder o) →
  ∃ b' σ' o',
    query_chain b calls σ = (Returned b', σ') ∧
    heap σ' !! b' = Some (HQueryBuilder o') ∧
    qb_prototype o' = qb_prototype o ∧ qb_firestore o' = qb_firestore o ∧
    collectionRef o' = collectionRef o.
Proof.
  induction calls as [|c calls IH]; intros σ b o Hb; simpl.
  - by exists b, σ, o.
  - unfold mbind, M_bind, bind.
    rewrite (invoke_query_call_run σ b o c Hb).
    edestruct (IH {| world := world σ;
                     heap := <[fresh (dom (heap σ)) :=
                                 HQueryBuilder (appended o (recorded_descriptor c))]>
                               (heap σ);
                     log := log σ |}
                  (fresh (dom (heap σ))) (appended o (recorded_descriptor c)))
      as (b' & σ' & o' & Hrun & Hb' & Hp & Hf & Hc).
    { simpl. apply lookup_insert_eq. }
    by exists b', σ', o'.
Qed.
End UpdateMap.

(** X14.  When the SDK accepts every call of a chain and no two calls are
    on the same field path, the order of the calls does not matter: any
    reordering of the chain accumulates the same map. *)
Theorem update_order_irrelevant_on_distinct_paths {World}
    (prototype : string) (docRef : DocumentReference)
    (calls calls' : list UpdateCall) (σ : State World) :
  calls ≡ₚ calls' →
  NoDup (call_path <$> calls) →
  Forall (λ c, call_accepted c = true) calls →
  ∃ b σ1 o b' σ1' o',
    (b0 ← UpdateBuilder.new prototype docRef; update_chain b0 calls) σ
      = (Returned b, σ1) ∧
    heap σ1 !! b = Some (HUpdateBuilder o) ∧
    (b0 ← UpdateBuilder.new prototype docRef; update_chain b0 calls') σ
      = (Returned b', σ1') ∧
    heap σ1' !! b' = Some (HUpdateBuilder o') ∧
    _updateData o = _updateData o'.
Proof.
  intros Hperm Hnd Hacc.
  assert (Forall (λ c, call_accepted c = true) calls') as Hacc'
    by (by rewrite <- Hperm).
  destruct (built_update_chain_run prototype docRef calls σ Hacc)
    as (b & σ1 & o & Hrun & Hb & _ & Hm & _).
  destruct (built_update_chain_run prototype docRef calls' σ Hacc')
    as (b' & σ1' & o' & Hrun' & Hb' & _ & Hm' & _).
  exists b, σ1, o, b', σ1', o'. split_and!; try done.
  apply map_eq. intros p. rewrite Hm, Hm'.
  by apply last_recorded_Permutation.
Qed.

(** X14 on [setField("name", ..).increment("count", 1)] and its reverse. *)
Lemma update_order_irrelevant_on_distinct_paths_witness :
  ∃ b σ1 o b' σ1' o',
    (b0 ← UpdateBuilder.new "AdminBaseUpdateBuilder" items_document;
     update_chain b0 [call_set "name" (VString "New Name"); call_increment "count" 1])
      (initial_state 0) = (Returned b, σ1) ∧
    heap σ1 !! b = Some (HUpdateBuilder o) ∧
    (b0 ← UpdateBuilder.new "AdminBaseUpdateBuilder" items_document;
     update_chain b0 [call_increment "count" 1; call_set "name" (VString "New Name")])
      (initial_state 0) = (Returned b', σ1') ∧
    heap σ1' !! b' = Some (HUpdateBuilder o') ∧
    _updateData o = _updateData o'.
Proof.
  apply (update_order_irrelevant_on_distinct_paths "AdminBaseUpdateBuilder"
           items_document
           [call_set "name" (VString "New Name"); call_increment "count" 1]
           [call_increment "count" 1; call_set "name" (VString "New Name")]
           (initial_state 0)).
  - apply perm_swap.
  - apply NoDup_cons. split.
    + intros Hin. apply list_elem_of_singleton in Hin. discriminate Hin.
    + apply NoDup_singleton.
  - repeat constructor.
Defined.

(** X15.  When the SDK accepts every call of a chain, the field paths of
    the accumulated map are exactly the paths the calls were made on. *)
Theorem update_map_paths {World}
    (prototype : string) (docRef : DocumentReference)
    (calls : list UpdateCall) (σ : State World) :
  Forall (λ c, call_accepted c = true) calls →
  ∃ b σ1 o,
    (b0 ← UpdateBuilder.new prototype docRef; update_chain b0 calls) σ
      = (Returned b, σ1) ∧
    heap σ1 !! b = Some (HUpdateBuilder o) ∧
    dom (_updateData o) = list_to_set (call_path <$> calls).
Proof.
  intros Hacc.
  destruct (built_update_chain_run prototype docRef calls σ Hacc)
    as (b & σ1 & o & Hrun & Hb & _ & Hm & _).
  exists b, σ1, o. split_and!; try done.
  apply set_eq. intros p.
  rewrite elem_of_dom, Hm, elem_of_list_to_set. apply last_recorded_is_Some.
Qed.

(** X15 on [setField("count", 1).setField("count", 2)]: one path. *)
Lemma update_map_paths_witness :
  ∃ b σ1 o,
    (b0 ← UpdateBuilder.new "AdminBaseUpdateBuilder" items_document;
     update_chain b0 setField_count_twice) (initial_state 0) = (Returned b, σ1) ∧
    heap σ1 !! b = Some (HUpdateBuilder o) ∧
    dom (_updateData o) = {[ "count" ]}.
Proof.
  destruct (update_map_paths "AdminBaseUpdateBuilder" items_document
              setField_count_twice (initial_state 0))
    as (b & σ1 & o & Hrun & Hb & Hdom).
  { repeat constructor. }
  exists b, σ1, o. split; [exact Hrun|]. split; [exact Hb|].
  rewrite Hdom. apply set_eq. intros p.
  rewrite elem_of_list_to_set, elem_of_singleton. simpl.
  rewrite !elem_of_cons, elem_of_nil. tauto.
Defined.

(** X16.  [commit] does not clear the builder: committing a builder whose
    map is not empty a second time sends the same map to the store again,
    whatever the outcome of the first call was. *)
Theorem commit_twice_sends_twice {World} (sdk : StoreAPI World)
    (σ : State World) (b : loc) (o : UpdateBuilderObject) :
  heap σ !! b = Some (HUpdateBuilder o) →
  _updateData o ≠ ∅ →
  ∃ p1 σ1 p2 σ2,
    UpdateBuilder.commit sdk b σ = (Returned p1, σ1) ∧
    UpdateBuilder.commit sdk b σ1 = (Returned p2, σ2) ∧
    heap σ2 = heap σ ∧
    log σ2 = log σ ++ [EvDocumentUpdate (_docRef o) (_updateData o);
                       EvDocumentUpdate (_docRef o) (_updateData o)].
Proof.
  intros Hb Hne.
  rewrite (commit_run sdk σ b o Hb), bool_decide_eq_false_2 by done.
  destruct (document_update sdk (_docRef o) (_updateData o) (world σ)) as [p1 w1].
  set (σ1 := {| world := w1; heap := heap σ;
                log := log σ ++ [EvDocumentUpdate (_docRef o) (_updateData o)] |}).
  assert (heap σ1 !! b = Some (HUpdateBuilder o)) as Hb1 by exact Hb.
  exists p1, σ1.
  rewrite (commit_run sdk σ1 b o Hb1), bool_decide_eq_false_2 by done. simpl.
  destruct (document_update sdk (_docRef o) (_updateData o) w1) as [p2 w2].
  eexists p2, _. split; [reflexivity|]. split; [reflexivity|].
  simpl. split; [done|]. by rewrite <- app_assoc.
Qed.

(** X16 on the builder returned by [_set("name", "New Name")]. *)
Lemma commit_twice_sends_twice_witness :
  ∃ p1 σ1 p2 σ2,
    UpdateBuilder.commit mock_sdk 2%positive named_update_builder_state
      = (Returned p1, σ1) ∧
    UpdateBuilder.commit mock_sdk 2%positive σ1 = (Returned p2, σ2) ∧
    update_calls (log σ2) = 2.
Proof.
  destruct (commit_twice_sends_twice mock_sdk named_update_builder_state 2%positive
              {| ub_prototype := "AdminBaseUpdateBuilder"; _docRef := items_document;
                 _updateData := list_to_map [ ("name", VString "New Name") ] |}
              eq_refl)
    as (p1 & σ1 & p2 & σ2 & H1 & H2 & _ & Hlog).
  - intros H. apply (f_equal (λ m : gmap string value, m !! "name")) in H.
    discriminate H.
  - exists p1, σ1, p2, σ2. split; [exact H1|]. split; [exact H2|].
    rewrite Hlog. reflexivity.
Defined.

(** X17.  Chaining keeps what the builder was made for: after any chain
    of calls (for an update builder, of calls the SDK accepts) the last
    builder has the prototype of the first (an instance of a subclass
    stays one), and the same firestore instance and collection reference,
    or the same document reference. *)
Theorem chain_keeps_prototype_and_target {World} (σ : State World) (b : loc) :
  (∀ o (calls : list QueryCall),
     heap σ !! b = Some (HQueryBuilder o) →
     ∃ b' σ' o',
       query_chain b calls σ = (Returned b', σ') ∧
       heap σ' !! b' = Some (HQueryBuilder o') ∧
       qb_prototype o' = qb_prototype o ∧ qb_firestore o' = qb_firestore o ∧
       collectionRef o' = collectionRef o) ∧
  (∀ o (calls : list UpdateCall),
     heap σ !! b = Some (HUpdateBuilder o) →
     Forall (λ c, call_accepted c = true) calls →
     ∃ b' σ' o',
       update_chain b calls σ = (Returned b', σ') ∧
       heap σ' !! b' = Some (HUpdateBuilder o') ∧
       ub_prototype o' = ub_prototype o ∧ _docRef o' = _docRef o).
Proof.
  split.
  - intros o calls Hb. by apply query_chain_fields.
  - intros o calls Hb Hacc. by apply update_chain_fields.
Qed.

(** X17 on the chains of the specification, from new builders. *)
Lemma chain_keeps_prototype_and_target_witness :
  (∃ b' σ' o',
     query_chain 1%positive filter_orderBy_limit_startAfter new_query_builder_state
       = (Returned b', σ') ∧
     heap σ' !! b' = Some (HQueryBuilder o') ∧
     qb_prototype o' = "AdminBaseQueryBuilder" ∧ collectionRef o' = items_collection) ∧
  (∃ b' σ' o',
     update_chain 1%positive setField_count_twice new_update_builder_state
       = (Returned b', σ') ∧
     heap σ' !! b' = Some (HUpdateBuilder o') ∧
     ub_prototype o' = "AdminBaseUpdateBuilder" ∧ _docRef o' = items_document).
Proof.
  split.
  - destruct (proj1 (chain_keeps_prototype_and_target new_query_builder_state
                       1%positive)
                {| qb_prototype := "AdminBaseQueryBuilder"; qb_firestore := mock_firestore;
                   collectionRef := items_collection; constraintDefinitions := [] |}
                filter_orderBy_limit_startAfter eq_refl)
      as (b' & σ' & o' & Hrun & Hb' & Hp & _ & Hc).
    exists b', σ', o'. split; [exact Hrun|]. split; [exact Hb'|].
    split; [exact Hp|exact Hc].
  - destruct (proj2 (chain_keeps_prototype_and_target new_update_builder_state
                       1%positive)
                {| ub_prototype := "AdminBaseUpdateBuilder"; _docRef := items_document;
                   _updateData := ∅ |}
                setField_count_twice eq_refl)
      as (b' & σ' & o' & Hrun & Hb' & Hp & Hd).
    { repeat constructor. }
    exists b', σ', o'. split; [exact Hrun|]. split; [exact Hb'|].
    split; [exact Hp|exact Hd].
Defined.

(** ** Field names found on the prototype chain *)

(** X18.  A field whose name is a member of [Object.prototype] and which
    the payload does not have is never given a default, whatever the schema
    configures for it: the payload is written without that field. *)
Theorem inherited_names_are_never_defaulted (sch : option CollectionSchema)
    (data : gmap string value) (f : string) :
  is_Some (Object_prototype !! f) →
  data !! f = None →
  applyDefaults sch data !! f = None.
Proof.
  intros [v Hv] Hf. rewrite applyDefaults_lookup. unfold filled.
  destruct (schema_fields sch !! f) as [fieldDef|]; [|done].
  assert (is_undefined (js_get data f) = false) as ->; [|done].
  unfold js_get. rewrite Hf, Hv. simpl.
  assert (Forall (λ kv : string * value, is_undefined kv.2 = false)
            (map_to_list Object_prototype)) as Hall
    by (vm_compute; repeat constructor).
  rewrite Forall_forall in Hall.
  apply elem_of_map_to_list in Hv. exact (Hall (f, v) Hv).
Qed.

(** X18 on a schema with a default for [toString]. *)
Lemma inherited_names_are_never_defaulted_witness :
  applyDefaults
    (Some (mkCollectionSchema
             (list_to_map [ ("toString", {| defaultValue := Some (VString "n/a") |}) ])
             None))
    payload_name_only !! "toString" = None.
Proof.
  apply inherited_names_are_never_defaulted.
  - eexists. reflexivity.
  - reflexivity.
Defined.
